(** * tokens-generator: the token lifecycle service, its validator, its API
      key gate and its controllers, embedded from the TypeScript sources.

    Layout of the development:
    - [JS]: the parts of the ECMAScript platform the sources call (time
      values and [Date] methods, [crypto.randomUUID], JSON values);
    - [Zod]: the schema combinators used by [token.validation.ts];
    - [Runtime]: the world the service runs in (environment, clock, entropy,
      the [tokens] table, the console) and the effect monad over it;
    - [Prisma]: the store operations the service issues;
    - [TokenService], [TokenValidation], [Auth], [TokenController]: the
      repository's own functions, one definition per source function;
    - the theorems.

    Strings are Rocq strings.  The code only tests strings for equality and
    for emptiness, and builds them from ASCII characters. *)

From Stdlib Require Import ZArith QArith Qcanon Lia.
From Stdlib.Strings Require Import Ascii Byte.
From stdpp Require Import base numbers strings list gmap sorting pretty.

Set Warnings "-register-all,-clear-no-such-hyp".
Local Open Scope Z_scope.

(** ** The ECMAScript platform *)

Module JS.

(** *** Numbers

    A Number is NaN, an infinity or a finite value.  Finite values are
    rationals: every double is one, and the arithmetic below is exact, as
    IEEE arithmetic is on the integers of magnitude below 2^53 that occur
    in date computations. *)

Inductive number :=
  | NaN
  | Infinity (negative : bool)
  | Finite (q : Qc).

Definition ofZ (z : Z) : number := Finite (Qc_of_Z z).

(** [Number.isInteger]. *)
Definition isInteger (x : number) : bool :=
  match x with
  | Finite q => bool_decide (Qden (this q) = 1%positive)
  | _ => false
  end.

(** [x + y]. *)
Definition add (x y : number) : number :=
  match x, y with
  | NaN, _ | _, NaN => NaN
  | Infinity a, Infinity b => if bool_decide (a = b) then Infinity a else NaN
  | Infinity a, Finite _ | Finite _, Infinity a => Infinity a
  | Finite a, Finite b => Finite (a + b)%Qc
  end.

(** [x <= y] and [x < y]; comparisons with NaN are false. *)
Definition le (x y : number) : bool :=
  match x, y with
  | NaN, _ | _, NaN => false
  | Infinity true, _ | _, Infinity false => true
  | Infinity false, _ | _, Infinity true => false
  | Finite a, Finite b => bool_decide (a ≤ b)%Qc
  end.

Definition lt (x y : number) : bool :=
  match x, y with
  | NaN, _ | _, NaN => false
  | Infinity a, Infinity b => a && negb b
  | Infinity a, Finite _ => a
  | Finite _, Infinity b => negb b
  | Finite a, Finite b => bool_decide (a < b)%Qc
  end.

(** [ToIntegerOrInfinity] on finite values (truncation towards zero);
    [None] for the values on which its callers below produce NaN. *)
Definition ToIntegerOrInfinity (x : number) : option Z :=
  match x with
  | Finite q => Some (Z.quot (Qnum (this q)) (Zpos (Qden (this q))))
  | _ => None
  end.

(** *** Time values (ECMA-262, Date objects)

    A time value is an integral number of milliseconds since the epoch, or
    NaN: an [option Z], [None] standing for NaN. *)

Definition msPerSecond : Z := 1000.
Definition msPerMinute : Z := 60000.
Definition msPerHour : Z := 3600000.
Definition msPerDay : Z := 86400000.

Definition Day (t : Z) : Z := t / msPerDay.
Definition TimeWithinDay (t : Z) : Z := t mod msPerDay.
Definition HourFromTime (t : Z) : Z := (t / msPerHour) mod 24.
Definition MinFromTime (t : Z) : Z := (t / msPerMinute) mod 60.
Definition SecFromTime (t : Z) : Z := (t / msPerSecond) mod 60.
Definition msFromTime (t : Z) : Z := t mod msPerSecond.

(** [MakeTime(hour, min, sec, ms)], for integral [hour], [sec] and [ms]
    (they come from a time value) and an arbitrary Number [min]. *)
Definition MakeTime (hour : Z) (min : number) (sec ms : Z) : option Z :=
  match ToIntegerOrInfinity min with
  | Some m =>
      Some (((hour * msPerHour + m * msPerMinute) + sec * msPerSecond) + ms)
  | None => None
  end.

Definition MakeDate (day : Z) (time : option Z) : option Z :=
  match time with
  | Some tm => Some (day * msPerDay + tm)
  | None => None
  end.

Definition maxTimeValue : Z := 8640000000000000.

Definition TimeClip (time : option Z) : option Z :=
  match time with
  | Some t => if maxTimeValue <? Z.abs t then None else Some t
  | None => None
  end.

(** The local time zone adjustment [LocalTZA(t, isUTC)] of the process's
    time zone: the offset of local time from UTC in milliseconds, at the
    UTC instant [t] when [isUTC], at the local time [t] otherwise. *)
Definition TimeZone : Type := Z → bool → Z.

Definition LocalTime (tz : TimeZone) (t : Z) : Z := t + tz t true.
Definition UTC (tz : TimeZone) (t : Z) : Z := t - tz t false.

(** A [Date] object is its time value. *)
Definition Date : Type := option Z.

(** [Date.prototype.getMinutes]. *)
Definition getMinutes (tz : TimeZone) (d : Date) : number :=
  match d with
  | Some t => ofZ (MinFromTime (LocalTime tz t))
  | None => NaN
  end.

(** [Date.prototype.setMinutes(min)]: the object's new time value. *)
Definition setMinutes (tz : TimeZone) (d : Date) (min : number) : Date :=
  match d with
  | Some t0 =>
      let t := LocalTime tz t0 in
      let date :=
        MakeDate (Day t)
          (MakeTime (HourFromTime t) min (SecFromTime t) (msFromTime t)) in
      TimeClip (match date with
                | Some dt => Some (UTC tz dt)
                | None => None
                end)
  | None => None
  end.

(** [a > b] on two [Date] objects: both are converted to their time
    values, and every comparison with NaN is false. *)
Definition gt (a b : Date) : bool :=
  match a, b with
  | Some x, Some y => y <? x
  | _, _ => false
  end.

(** *** The calendar (ECMA-262, "Year Number" to "Date Number") *)

Definition DaysInYear (y : Z) : Z :=
  if negb (y mod 4 =? 0) then 365
  else if negb (y mod 100 =? 0) then 366
  else if negb (y mod 400 =? 0) then 365
  else 366.

Definition DayFromYear (y : Z) : Z :=
  365 * (y - 1970) + (y - 1969) / 4 - (y - 1901) / 100 + (y - 1601) / 400.

Definition TimeFromYear (y : Z) : Z := msPerDay * DayFromYear y.

(** [YearFromTime(t)] is the largest [y] with [TimeFromYear(y) <= t].  It is
    computed from the mean length of a Gregorian year, 146097/400 days,
    followed by one correction step ([YearFromTime_largest] below). *)
Definition YearFromTime (t : Z) : Z :=
  let d := Day t in
  let y := 1970 + (400 * d) / 146097 in
  if d <? DayFromYear y then y - 1
  else if DayFromYear (y + 1) <=? d then y + 1
  else y.

Definition InLeapYear (t : Z) : Z :=
  if DaysInYear (YearFromTime t) =? 366 then 1 else 0.

Definition DayWithinYear (t : Z) : Z := Day t - DayFromYear (YearFromTime t).

Definition MonthFromTime (t : Z) : Z :=
  let d := DayWithinYear t in
  let leap := InLeapYear t in
  if d <? 31 then 0
  else if d <? 59 + leap then 1
  else if d <? 90 + leap then 2
  else if d <? 120 + leap then 3
  else if d <? 151 + leap then 4
  else if d <? 181 + leap then 5
  else if d <? 212 + leap then 6
  else if d <? 243 + leap then 7
  else if d <? 273 + leap then 8
  else if d <? 304 + leap then 9
  else if d <? 334 + leap then 10
  else 11.

Definition DateFromTime (t : Z) : Z :=
  let d := DayWithinYear t in
  let leap := InLeapYear t in
  match MonthFromTime t with
  | 0 => d + 1
  | 1 => d - 30
  | 2 => d - 58 - leap
  | 3 => d - 89 - leap
  | 4 => d - 119 - leap
  | 5 => d - 150 - leap
  | 6 => d - 180 - leap
  | 7 => d - 211 - leap
  | 8 => d - 242 - leap
  | 9 => d - 272 - leap
  | 10 => d - 303 - leap
  | _ => d - 333 - leap
  end.

(** The number of days of a year that precede its month [m] (0 to 11;
    12 gives the length of the year). *)
Definition daysBeforeMonth (m leap : Z) : Z :=
  match m with
  | 0 => 0
  | 1 => 31
  | 2 => 59 + leap
  | 3 => 90 + leap
  | 4 => 120 + leap
  | 5 => 151 + leap
  | 6 => 181 + leap
  | 7 => 212 + leap
  | 8 => 243 + leap
  | 9 => 273 + leap
  | 10 => 304 + leap
  | 11 => 334 + leap
  | _ => 365 + leap
  end.

Definition leapOfYear (y : Z) : Z := if DaysInYear y =? 366 then 1 else 0.

Definition DaysInMonth (y m : Z) : Z :=
  daysBeforeMonth (m + 1) (leapOfYear y) - daysBeforeMonth m (leapOfYear y).

(** [MakeDay(year, month, date)]: the day number of the first day of the
    month, plus [date - 1]. *)
Definition MakeDay (year month date : Z) : Z :=
  let ym := year + month / 12 in
  let mn := month mod 12 in
  DayFromYear ym + daysBeforeMonth mn (leapOfYear ym) + date - 1.

(** *** [Date.prototype.toISOString] and [Date.parse] *)

Definition digitChar (d : Z) : ascii := ascii_of_N (Z.to_N (48 + d)).

(** [ToZeroPaddedDecimalString(n, width)] for [0 <= n < 10 ^ width],
    followed by [rest]. *)
Fixpoint ToZeroPaddedDecimalString (n : Z) (width : nat) (rest : string)
  : string :=
  match width with
  | O => rest
  | S w =>
      String (digitChar ((n / 10 ^ Z.of_nat w) mod 10))
             (ToZeroPaddedDecimalString n w rest)
  end.

(** The year of the date-time string format: four digits from 0 to 9999,
    a sign and six digits otherwise. *)
Definition yearString (y : Z) (rest : string) : string :=
  if (0 <=? y) && (y <=? 9999) then ToZeroPaddedDecimalString y 4 rest
  else String (if 0 <=? y then "+"%char else "-"%char)
              (ToZeroPaddedDecimalString (Z.abs y) 6 rest).

(** [toISOString]: [None] when the method throws a RangeError, which it
    does on an invalid date. *)
Definition toISOString (d : Date) : option string :=
  match d with
  | None => None
  | Some tv =>
      Some (yearString (YearFromTime tv)
        (String "-" (ToZeroPaddedDecimalString (MonthFromTime tv + 1) 2
        (String "-" (ToZeroPaddedDecimalString (DateFromTime tv) 2
        (String "T" (ToZeroPaddedDecimalString (HourFromTime tv) 2
        (String ":" (ToZeroPaddedDecimalString (MinFromTime tv) 2
        (String ":" (ToZeroPaddedDecimalString (SecFromTime tv) 2
        (String "." (ToZeroPaddedDecimalString (msFromTime tv) 3
        "Z")))))))))))))
  end.

Definition digitValue (c : ascii) : option Z :=
  let n := Z.of_N (N_of_ascii c) in
  if (48 <=? n) && (n <=? 57) then Some (n - 48) else None.

Fixpoint readDigits (width : nat) (acc : Z) (s : string)
  : option (Z * string) :=
  match width with
  | O => Some (acc, s)
  | S w =>
      match s with
      | String c s' =>
          match digitValue c with
          | Some d => readDigits w (10 * acc + d) s'
          | None => None
          end
      | EmptyString => None
      end
  end.

Definition expect (c : ascii) (s : string) : option string :=
  match s with
  | String c' s' => if Ascii.eqb c c' then Some s' else None
  | EmptyString => None
  end.

Definition readYear (s : string) : option (Z * string) :=
  match s with
  | String "+" s' => readDigits 6 0 s'
  | String "-" s' =>
      '(y, rest) ← readDigits 6 0 s';
      if y =? 0 then None else Some (- y, rest)
  | _ => readDigits 4 0 s
  end.

(** [Date.parse] on the complete form of the date-time string format with
    the UTC designator, [YYYY-MM-DDTHH:mm:ss.sssZ] and its expanded-year
    variant, which is the form [toISOString] writes.  Elements out of
    range make the string invalid.  The other forms [Date.parse] accepts
    (date only, explicit offsets, legacy formats) are outside this model
    and read as NaN here. *)
Definition parse (s : string) : Date :=
  '(y, s) ← readYear s;
  s ← expect "-" s;
  '(mo, s) ← readDigits 2 0 s;
  s ← expect "-" s;
  '(dd, s) ← readDigits 2 0 s;
  s ← expect "T" s;
  '(hh, s) ← readDigits 2 0 s;
  s ← expect ":" s;
  '(mi, s) ← readDigits 2 0 s;
  s ← expect ":" s;
  '(ss, s) ← readDigits 2 0 s;
  s ← expect "." s;
  '(ms, s) ← readDigits 3 0 s;
  s ← expect "Z" s;
  if negb (String.eqb s "") then None
  else if negb ((1 <=? mo) && (mo <=? 12)) then None
  else if negb ((1 <=? dd) && (dd <=? DaysInMonth y (mo - 1))) then None
  else if negb ((hh <=? 23) || ((hh =? 24) && (mi =? 0) && (ss =? 0) && (ms =? 0)))
  then None
  else if negb ((mi <=? 59) && (ss <=? 59)) then None
  else TimeClip (MakeDate (MakeDay y (mo - 1) dd) (MakeTime hh (ofZ mi) ss ms)).

(** *** [crypto.randomUUID]

    Sixteen bytes from the cryptographic random source, the version and
    variant bits of RFC 4122 forced, written as lower-case hexadecimal in
    the 8-4-4-4-12 grouping (Node's [lib/internal/crypto/random.js]). *)

Definition byteValue (b : byte) : Z := Z.of_N (Byte.to_N b).

Definition hexChar (n : Z) : ascii :=
  if n <? 10 then ascii_of_N (Z.to_N (48 + n))
  else ascii_of_N (Z.to_N (87 + n)).

(** [kHexBytes[b]], followed by [rest]. *)
Definition kHexBytes (b : Z) (rest : string) : string :=
  String (hexChar (b / 16)) (String (hexChar (b mod 16)) rest).

Definition at_ (buf : list Z) (i : nat) : Z := default 0 (buf !! i).

Definition serializeUUID (buf : list Z) : string :=
  kHexBytes (at_ buf 0) (kHexBytes (at_ buf 1)
  (kHexBytes (at_ buf 2) (kHexBytes (at_ buf 3)
  (String "-"
  (kHexBytes (at_ buf 4) (kHexBytes (at_ buf 5)
  (String "-"
  (kHexBytes (at_ buf 6) (kHexBytes (at_ buf 7)
  (String "-"
  (kHexBytes (at_ buf 8) (kHexBytes (at_ buf 9)
  (String "-"
  (kHexBytes (at_ buf 10) (kHexBytes (at_ buf 11)
  (kHexBytes (at_ buf 12) (kHexBytes (at_ buf 13)
  (kHexBytes (at_ buf 14) (kHexBytes (at_ buf 15) "")))))))))))))))))))%nat.

(** The buffer [uuidData] once filled with the sixteen random bytes
    [random] and stamped with the version and the variant. *)
Definition uuidData (random : list byte) : list Z :=
  let uuidData := byteValue <$> random in
  let uuidData :=
    <[6%nat := Z.lor (Z.land (at_ uuidData 6) 0x0f) 0x40]> uuidData in
  let uuidData :=
    <[8%nat := Z.lor (Z.land (at_ uuidData 8) 0x3f) 0x80]> uuidData in
  uuidData.

(** The UUID made from the sixteen random bytes [random]. *)
Definition uuidOfRandom (random : list byte) : string :=
  serializeUUID (uuidData random).

Definition isHexDigit (c : ascii) : bool :=
  let n := Z.of_N (N_of_ascii c) in
  ((48 <=? n) && (n <=? 57)) || ((97 <=? n) && (n <=? 102)).

(** [hexRun n s]: what is left of [s] after [n] lower-case hexadecimal
    digits, if it starts with as many. *)
Fixpoint hexRun (n : nat) (s : string) : option string :=
  match n with
  | O => Some s
  | S n' =>
      match s with
      | String c s' => if isHexDigit c then hexRun n' s' else None
      | EmptyString => None
      end
  end.

(** The canonical text of a version 4 UUID: groups of 8, 4, 4, 4 and 12
    lower-case hexadecimal digits separated by hyphens, the third group
    starting with the version 4 and the fourth with a variant digit 8, 9, a
    or b. *)
Definition isUUIDv4 (s : string) : bool :=
  match
    s ← hexRun 8 s; s ← expect "-" s;
    s ← hexRun 4 s; s ← expect "-" s;
    s ← expect "4" s; s ← hexRun 3 s; s ← expect "-" s;
    s ← match s with
        | String c s' =>
            if bool_decide (c ∈ ["8"; "9"; "a"; "b"]%char) then Some s' else None
        | EmptyString => None
        end;
    s ← hexRun 3 s; s ← expect "-" s;
    hexRun 12 s
  with
  | Some "" => true
  | _ => false
  end.

(** Reading the bytes back from the text of a UUID. *)
Definition unhexChar (c : ascii) : Z :=
  let n := Z.of_N (N_of_ascii c) in
  if n <? 58 then n - 48 else n - 87.

Fixpoint unhexBytes (s : string) : list Z :=
  match s with
  | String c s' =>
      if Ascii.eqb c "-" then unhexBytes s'
      else
        match s' with
        | String c' s'' => (16 * unhexChar c + unhexChar c') :: unhexBytes s''
        | EmptyString => []
        end
  | EmptyString => []
  end.

(** *** JSON values, as [JSON.parse] and [request.json()] produce them *)

Inductive json :=
  | JNull
  | JBool (b : bool)
  | JNumber (n : number)
  | JString (s : string)
  | JArray (elements : list json)
  | JObject (properties : gmap string json).

(** [String.prototype.toLowerCase] on ASCII letters. *)
Definition lowerChar (c : ascii) : ascii :=
  let n := N_of_ascii c in
  if ((65 <=? n) && (n <=? 90))%N then ascii_of_N (n + 32) else c.

Fixpoint toLowerCase (s : string) : string :=
  match s with
  | EmptyString => EmptyString
  | String c s' => String (lowerChar c) (toLowerCase s')
  end.

(** [!x] is false exactly on the truthy values; a string or [undefined]
    is truthy when it is a non-empty string. *)
Definition truthy (x : option string) : bool :=
  match x with
  | Some s => negb (String.eqb s "")
  | None => false
  end.

(** [a === b] for [a : string | null] and [b : string | undefined]:
    [null] and [undefined] are different values. *)
Definition strictEquals (a b : option string) : bool :=
  match a, b with
  | Some x, Some y => String.eqb x y
  | _, _ => false
  end.

(** Time zones used in the examples: UTC, zones of fixed offset, and the
    zone America/New_York in 2025, five hours behind UTC until
    2025-03-09T07:00:00Z, four hours behind from then until
    2025-11-02T06:00:00Z, and five hours behind again afterwards.  A local
    time that the first transition skips, or that the second one repeats, is
    read with the offset in force before the transition. *)
Definition tzUTC : TimeZone := λ _ _, 0.

Definition tzFixed (offset : Z) : TimeZone := λ _ _, offset.

Definition springForward : Z := 1741503600000.
Definition fallBack : Z := 1762063200000.

Definition tzEastern : TimeZone := λ t isUTC,
  if (isUTC : bool)
  then (if t <? springForward then -18000000
        else if t <? fallBack then -14400000
        else -18000000)
  else (if t <? springForward - 14400000 then -18000000
        else if t <? fallBack - 14400000 then -14400000
        else -18000000).

End JS.

(** ** Zod: the schema combinators of [token.validation.ts] *)

Module Zod.

Inductive PathElem :=
  | Key (name : string)
  | Index (i : nat).

Record ZodIssue := { path : list PathElem; message : string }.

(** The outcome of parsing one value: the issues raised, and the value
    when parsing was not aborted.  A failed check leaves the value in place
    (so that the checks after it run) and adds its issue. *)
Record ParseReturn (A : Type) := { issues : list ZodIssue; value : option A }.
Arguments issues {A} _.
Arguments value {A} _.

(** A schema parses the value found at [path]; [None] is [undefined]. *)
Definition ZodType (A : Type) : Type :=
  list PathElem → option JS.json → ParseReturn A.

Definition OK {A} (a : A) : ParseReturn A :=
  {| issues := []; value := Some a |}.

Definition getParsedType (v : option JS.json) : string :=
  match v with
  | None => "undefined"
  | Some JS.JNull => "null"
  | Some (JS.JBool _) => "boolean"
  | Some (JS.JNumber JS.NaN) => "nan"
  | Some (JS.JNumber _) => "number"
  | Some (JS.JString _) => "string"
  | Some (JS.JArray _) => "array"
  | Some (JS.JObject _) => "object"
  end.

Definition invalid_type {A} (expected : string) (p : list PathElem)
    (v : option JS.json) : ParseReturn A :=
  {| issues :=
       [ {| path := p;
            message :=
              match v with
              | None => "Required"
              | Some _ =>
                  "Expected " +:+ expected +:+ ", received "
                    +:+ getParsedType v
              end |} ];
     value := None |}.

(** [z.string()], [z.number()], [z.array(element)]. *)
Definition string : ZodType String.string := λ p v,
  match v with
  | Some (JS.JString s) => OK s
  | _ => invalid_type "string" p v
  end.

Definition number : ZodType JS.number := λ p v,
  match v with
  | Some (JS.JNumber JS.NaN) => invalid_type "number" p v
  | Some (JS.JNumber n) => OK n
  | _ => invalid_type "number" p v
  end.

Definition merge {A} (r : ParseReturn A) (rs : ParseReturn (list A))
  : ParseReturn (list A) :=
  {| issues := issues r ++ issues rs;
     value := match value r, value rs with
              | Some a, Some l => Some (a :: l)
              | _, _ => None
              end |}.

Definition array {A} (element : ZodType A) : ZodType (list A) := λ p v,
  match v with
  | Some (JS.JArray l) =>
      foldr merge (OK []) (imap (λ i x, element (p ++ [Index i]) (Some x)) l)
  | _ => invalid_type "array" p v
  end.

(** A check added to a schema: when the value fails it, the issue with the
    given message is recorded after the issues raised so far. *)
Definition check {A} (holds : A → bool) (msg : String.string)
    (schema : ZodType A) : ZodType A := λ p v,
  let r := schema p v in
  match value r with
  | Some a =>
      if holds a then r
      else {| issues := issues r ++ [ {| path := p; message := msg |} ];
              value := Some a |}
  | None => r
  end.

(** [.min(n, msg)] on strings and arrays bounds the length. *)
Class HasLength (A : Type) := lengthOf : A → nat.
#[global] Instance string_length : HasLength String.string := String.length.
#[global] Instance array_length {A} : HasLength (list A) := length.

Definition min {A} `{HasLength A} (n : nat) (msg : String.string)
  : ZodType A → ZodType A :=
  check (λ a, (n <=? lengthOf a)%nat) msg.

(** [.int(msg)], [.positive(msg)] and [.max(n, msg)] on numbers. *)
Definition int (msg : String.string) : ZodType JS.number → ZodType JS.number :=
  check JS.isInteger msg.

Definition positive (msg : String.string)
  : ZodType JS.number → ZodType JS.number :=
  check (λ x, JS.lt (JS.ofZ 0) x) msg.

Definition max (n : Z) (msg : String.string)
  : ZodType JS.number → ZodType JS.number :=
  check (λ x, JS.le x (JS.ofZ n)) msg.

(** [z.object(shape)]: the input must be an object; each property of the
    shape is parsed at its key (a missing key reads as [undefined]), the
    issues of all properties are collected, and unknown keys are dropped. *)
Definition property {A} (name : String.string) (schema : ZodType A)
    (p : list PathElem) (o : gmap String.string JS.json) : ParseReturn A :=
  schema (p ++ [Key name]) (o !! name).

Definition object {A}
    (shape : list PathElem → gmap String.string JS.json → ParseReturn A)
  : ZodType A := λ p v,
  match v with
  | Some (JS.JObject o) => shape p o
  | _ => invalid_type "object" p v
  end.

Definition map {A B} (f : A → B) (r : ParseReturn A) : ParseReturn B :=
  {| issues := issues r; value := f <$> value r |}.

Definition ap {A B} (rf : ParseReturn (A → B)) (r : ParseReturn A)
  : ParseReturn B :=
  {| issues := issues rf ++ issues r;
     value := match value rf, value r with
              | Some f, Some a => Some (f a)
              | _, _ => None
              end |}.

(** [schema.safeParse(data)]: the parsed data, or the issues. *)
Definition safeParse {A} (schema : ZodType A) (data : JS.json)
  : list ZodIssue + A :=
  let r := schema [] (Some data) in
  match issues r, value r with
  | [], Some a => inr a
  | raised, _ => inl raised
  end.

End Zod.

Notation "schema '.>' method" := (method schema)
  (at level 50, left associativity, only parsing).

(** ** [src/tokens/token.type.ts] *)

Module TokenType.

Record Token := {
  id : string;
  token : string;
  userId : string;
  scopes : list string;
  createdAt : JS.Date;
  expiresAt : JS.Date;
}.

Record TokenResponse := {
  r_id : string;
  r_token : string;
  r_userId : string;
  r_scopes : list string;
  r_createdAt : string;
  r_expiresAt : string;
}.

Record ErrorResponse := {
  error : string;
  details : option (list Zod.ZodIssue);
}.

End TokenType.

(** ** The world the service runs in *)

Module Runtime.

(** A row of the table [tokens] of [migration.sql].  The two timestamps
    are [TIMESTAMP(3) NOT NULL]: instants with millisecond precision, kept
    here as milliseconds since the epoch. *)
Record Row := {
  id : string;
  token : string;
  userId : string;
  scopes : list string;
  createdAt : Z;
  expiresAt : Z;
}.

Inductive exn :=
  | ZodError (issues : list Zod.ZodIssue)
  | SyntaxError (message : string)
  | RangeError (message : string)
  | PrismaClientValidationError (message : string)
  | PrismaClientKnownRequestError (code : string)
  | PrismaClientInitializationError.

Inductive ConsoleLevel := Warn | Error.

(** - [API_KEY]: [process.env.API_KEY];
    - [TZ]: the local time zone of the process;
    - [clock], [reads]: the successive readings of the system clock
      ([new Date()] in the process, [CURRENT_TIMESTAMP] in the store, both
      taken from one clock) and the number of readings taken so far;
    - [entropy], [drawn]: the output of the cryptographic random source and
      the number of bytes consumed so far;
    - [cuid], [issued]: the identifiers the Prisma client assigns
      ([@default(cuid())]) and the number assigned so far;
    - [tokens]: the rows of the table [tokens];
    - [online]: whether the store can be reached;
    - [console]: the lines written to the console, oldest first. *)
Record World := {
  API_KEY : option string;
  TZ : JS.TimeZone;
  clock : nat → Z;
  reads : nat;
  entropy : nat → byte;
  drawn : nat;
  cuid : nat → string;
  issued : nat;
  tokens : list Row;
  online : bool;
  console : list (ConsoleLevel * string);
}.

Definition set_API_KEY (k : option string) (w : World) : World :=
  {| API_KEY := k; TZ := TZ w; clock := clock w; reads := reads w;
     entropy := entropy w; drawn := drawn w; cuid := cuid w;
     issued := issued w; tokens := tokens w; online := online w;
     console := console w |}.

Definition set_reads (n : nat) (w : World) : World :=
  {| API_KEY := API_KEY w; TZ := TZ w; clock := clock w; reads := n;
     entropy := entropy w; drawn := drawn w; cuid := cuid w;
     issued := issued w; tokens := tokens w; online := online w;
     console := console w |}.

Definition set_drawn (n : nat) (w : World) : World :=
  {| API_KEY := API_KEY w; TZ := TZ w; clock := clock w; reads := reads w;
     entropy := entropy w; drawn := n; cuid := cuid w;
     issued := issued w; tokens := tokens w; online := online w;
     console := console w |}.

Definition set_issued (n : nat) (w : World) : World :=
  {| API_KEY := API_KEY w; TZ := TZ w; clock := clock w; reads := reads w;
     entropy := entropy w; drawn := drawn w; cuid := cuid w;
     issued := n; tokens := tokens w; online := online w;
     console := console w |}.

Definition set_tokens (rows : list Row) (w : World) : World :=
  {| API_KEY := API_KEY w; TZ := TZ w; clock := clock w; reads := reads w;
     entropy := entropy w; drawn := drawn w; cuid := cuid w;
     issued := issued w; tokens := rows; online := online w;
     console := console w |}.

Definition set_console (lines : list (ConsoleLevel * string)) (w : World)
  : World :=
  {| API_KEY := API_KEY w; TZ := TZ w; clock := clock w; reads := reads w;
     entropy := entropy w; drawn := drawn w; cuid := cuid w;
     issued := issued w; tokens := tokens w; online := online w;
     console := lines |}.

(** Computations: they read and change the world, and return or throw. *)
Inductive outcome (A : Type) :=
  | Returned (a : A)
  | Thrown (e : exn).
Arguments Returned {A} _.
Arguments Thrown {A} _.

Definition Eff (A : Type) : Type := World → outcome A * World.

#[global] Instance Eff_ret : MRet Eff := λ A a w, (Returned a, w).

#[global] Instance Eff_bind : MBind Eff := λ A B f m w,
  match m w with
  | (Returned a, w') => f a w'
  | (Thrown e, w') => (Thrown e, w')
  end.

Definition throw {A} (e : exn) : Eff A := λ w, (Thrown e, w).

(** [try { body } catch (error) { handler }]. *)
Definition try_catch {A} (body : Eff A) (handler : exn → Eff A) : Eff A :=
  λ w,
  match body w with
  | (Returned a, w') => (Returned a, w')
  | (Thrown e, w') => handler e w'
  end.

(** [new Date()]: the next reading of the clock. *)
Definition new_Date : Eff JS.Date := λ w,
  (Returned (Some (clock w (reads w))), set_reads (S (reads w)) w).

Definition getMinutes (d : JS.Date) : Eff JS.number := λ w,
  (Returned (JS.getMinutes (TZ w) d), w).

(** [d.setMinutes(min)]; the computation returns the date as updated. *)
Definition setMinutes (d : JS.Date) (min : JS.number) : Eff JS.Date := λ w,
  (Returned (JS.setMinutes (TZ w) d min), w).

Definition toISOString (d : JS.Date) : Eff string :=
  match JS.toISOString d with
  | Some s => mret s
  | None => throw (RangeError "Invalid time value")
  end.

(** The next [n] bytes of the random source. *)
Definition nextBytes (n : nat) (w : World) : list byte :=
  (λ i, entropy w (drawn w + i)%nat) <$> seq 0 n.

(** [randomUUID()] consumes sixteen bytes of entropy. *)
Definition randomUUID : Eff string := λ w,
  (Returned (JS.uuidOfRandom (nextBytes 16 w)), set_drawn (drawn w + 16)%nat w).

Definition process_env_API_KEY : Eff (option string) := λ w,
  (Returned (API_KEY w), w).

Definition console_warn (line : string) : Eff unit := λ w,
  (Returned (), set_console (console w ++ [(Warn, line)]) w).

Definition console_error (line : string) : Eff unit := λ w,
  (Returned (), set_console (console w ++ [(Error, line)]) w).

(** [schema.parse(data)] throws a [ZodError] carrying the issues. *)
Definition parse {A} (schema : Zod.ZodType A) (data : JS.json) : Eff A :=
  match Zod.safeParse schema data with
  | inr a => mret a
  | inl raised => throw (ZodError raised)
  end.

End Runtime.

(** ** The queries the service sends through the Prisma client *)

Module Prisma.
Import Runtime.

Definition toToken (r : Row) : TokenType.Token :=
  {| TokenType.id := id r;
     TokenType.token := token r;
     TokenType.userId := userId r;
     TokenType.scopes := scopes r;
     TokenType.createdAt := Some (createdAt r);
     TokenType.expiresAt := Some (expiresAt r) |}.

(** [prisma.token.create({ data: { token, userId, scopes, expiresAt } })].
    The client assigns [id]; the store assigns [createdAt] from its clock
    ([DEFAULT CURRENT_TIMESTAMP]) and refuses a row whose [id] or [token]
    already exists ([tokens_pkey], [tokens_token_key]).  A failed insert
    leaves the world as it was. *)
Definition token_create (token_ userId_ : string) (scopes_ : list string)
    (expiresAt_ : JS.Date) : Eff TokenType.Token := λ w,
  match expiresAt_ with
  | None => (Thrown (PrismaClientValidationError "Invalid Date"), w)
  | Some e =>
      if negb (online w) then (Thrown PrismaClientInitializationError, w)
      else
        let row :=
          {| id := cuid w (issued w); token := token_; userId := userId_;
             scopes := scopes_; createdAt := clock w (reads w);
             expiresAt := e |} in
        if bool_decide (id row ∈ id <$> tokens w)
           || bool_decide (token_ ∈ token <$> tokens w)
        then (Thrown (PrismaClientKnownRequestError "P2002"), w)
        else (Returned (toToken row),
              set_issued (S (issued w))
                (set_reads (S (reads w))
                   (set_tokens (tokens w ++ [row]) w)))
  end.

(** The order [orderBy: { createdAt: 'desc' }] asks for. *)
Definition createdAt_desc (a b : Row) : Prop := createdAt b ≤ createdAt a.

#[global] Instance createdAt_desc_dec a b : Decision (createdAt_desc a b).
Proof. unfold createdAt_desc. apply _. Defined.

(** [prisma.token.findMany({ where: { userId, expiresAt: { gt } },
    orderBy: { createdAt: 'desc' } })]: a read of the table.  Rows with
    equal [createdAt] come in the order the sort leaves them. *)
Definition token_findMany (userId_ : string) (gt : JS.Date)
  : Eff (list TokenType.Token) := λ w,
  match gt with
  | None => (Thrown (PrismaClientValidationError "Invalid Date"), w)
  | Some now =>
      if negb (online w) then (Thrown PrismaClientInitializationError, w)
      else
        (Returned
           (toToken <$>
              merge_sort createdAt_desc
                (filter (λ r, userId r = userId_ ∧ now < expiresAt r)
                        (tokens w))),
         w)
  end.

(** [prisma.token.deleteMany({ where: { expiresAt: { lte } } })]. *)
Definition token_deleteMany (lte : JS.Date) : Eff nat := λ w,
  match lte with
  | None => (Thrown (PrismaClientValidationError "Invalid Date"), w)
  | Some now =>
      if negb (online w) then (Thrown PrismaClientInitializationError, w)
      else
        (Returned (length (filter (λ r, expiresAt r ≤ now) (tokens w))),
         set_tokens (filter (λ r, ¬ expiresAt r ≤ now) (tokens w)) w)
  end.

End Prisma.

(** ** [src/tokens/token.service.ts] *)

Module TokenService.
Import Runtime.

Definition generateTokenString : Eff string :=
  uuid ← randomUUID;
  mret ("token_" +:+ uuid).

Definition calculateExpiryDate (expiresInMinutes : JS.number) : Eff JS.Date :=
  expiresAt ← new_Date;
  minutes ← getMinutes expiresAt;
  setMinutes expiresAt (JS.add minutes expiresInMinutes).

Definition isTokenExpired (expiresAt : JS.Date) : Eff bool :=
  now ← new_Date;
  mret (JS.gt now expiresAt).

Definition serializeToken (token : TokenType.Token)
  : Eff TokenType.TokenResponse :=
  createdAt ← toISOString (TokenType.createdAt token);
  expiresAt ← toISOString (TokenType.expiresAt token);
  mret {| TokenType.r_id := TokenType.id token;
          TokenType.r_token := TokenType.token token;
          TokenType.r_userId := TokenType.userId token;
          TokenType.r_scopes := TokenType.scopes token;
          TokenType.r_createdAt := createdAt;
          TokenType.r_expiresAt := expiresAt |}.

Definition createToken (userId : string) (scopes : list string)
    (expiresInMinutes : JS.number) : Eff TokenType.Token :=
  token ← generateTokenString;
  expiresAt ← calculateExpiryDate expiresInMinutes;
  createdToken ← Prisma.token_create token userId scopes expiresAt;
  mret createdToken.

Definition getActiveTokensForUser (userId : string)
  : Eff (list TokenType.Token) :=
  now ← new_Date;
  tokens ← Prisma.token_findMany userId now;
  mret tokens.

Definition deleteExpiredTokens : Eff nat :=
  now ← new_Date;
  Prisma.token_deleteMany now.

End TokenService.

(** ** [src/tokens/token.validation.ts] *)

Module TokenValidation.

Record CreateTokenInput := {
  userId : string;
  scopes : list string;
  expiresInMinutes : JS.number;
}.

Record GetTokensInput := { q_userId : string }.

Definition createTokenSchema : Zod.ZodType CreateTokenInput :=
  Zod.object (λ p o,
    Zod.ap (Zod.ap (Zod.map Build_CreateTokenInput
      (Zod.property "userId"
         (Zod.string .> Zod.min 1 "userId must not be empty") p o))
      (Zod.property "scopes"
         (Zod.array
            (Zod.string .> Zod.min 1 "Each scope must be a non-empty string")
            .> Zod.min 1 "At least one scope is required") p o))
      (Zod.property "expiresInMinutes"
         (Zod.number
            .> Zod.int "expiresInMinutes must be an integer"
            .> Zod.positive "expiresInMinutes must be positive"
            .> Zod.max 525600
                 "expiresInMinutes cannot exceed 1 year (525600 minutes)")
         p o)).

Definition getTokensSchema : Zod.ZodType GetTokensInput :=
  Zod.object (λ p o,
    Zod.map Build_GetTokensInput
      (Zod.property "userId"
         (Zod.string .> Zod.min 1 "userId must not be empty") p o)).

End TokenValidation.

(** ** [src/lib/auth.ts] and the requests and responses of Next.js *)

Module Next.

(** A request: its headers by lower-case name, the query parameters of its
    URL, and the outcome of [await request.json()], which is the parsed
    body, or [None] when the body is not JSON text and the promise is
    rejected with a [SyntaxError]. *)
Record NextRequest := {
  headers : gmap string string;
  searchParams : gmap string string;
  json : option JS.json;
}.

(** [headers.get(name)]: header names are matched without regard to
    case; [None] is [null]. *)
Definition headers_get (request : NextRequest) (name : string)
  : option string :=
  headers request !! JS.toLowerCase name.

Definition request_json (request : NextRequest) : Runtime.Eff JS.json :=
  match json request with
  | Some data => mret data
  | None => Runtime.throw (Runtime.SyntaxError "Unexpected token in JSON")
  end.

Inductive Body :=
  | TokenBody (t : TokenType.TokenResponse)
  | TokensBody (ts : list TokenType.TokenResponse)
  | ErrorBody (e : TokenType.ErrorResponse).

Record NextResponse := { body : Body; status : Z }.

(** [NextResponse.json(body, { status })]. *)
Definition NextResponse_json (b : Body) (st : Z) : NextResponse :=
  {| body := b; status := st |}.

End Next.

Module Auth.
Import Runtime Next.

Definition validateApiKey (request : NextRequest) : Eff bool :=
  let apiKey := headers_get request "X-API-Key" in
  expectedApiKey ← process_env_API_KEY;
  if negb (JS.truthy expectedApiKey) then
    _ ← console_warn
          "Warning: API_KEY not configured. Authentication is disabled.";
    mret true
  else
    mret (JS.strictEquals apiKey expectedApiKey).

End Auth.

(** ** [src/tokens/token.controller.ts] *)

Module TokenController.
Import Runtime Next.

Definition unauthorized : NextResponse :=
  NextResponse_json
    (ErrorBody {| TokenType.error :=
                    "Unauthorized. Valid X-API-Key header required.";
                  TokenType.details := None |})
    401.

Definition validationFailed (issues : list Zod.ZodIssue) : NextResponse :=
  NextResponse_json
    (ErrorBody {| TokenType.error := "Validation failed";
                  TokenType.details := Some issues |})
    400.

Definition internalServerError : NextResponse :=
  NextResponse_json
    (ErrorBody {| TokenType.error := "Internal server error";
                  TokenType.details := None |})
    500.

Definition createTokenController (request : NextRequest) : Eff NextResponse :=
  try_catch
    (authorized ← Auth.validateApiKey request;
     if negb authorized then mret unauthorized
     else
       body ← request_json request;
       validatedData ← parse TokenValidation.createTokenSchema body;
       token ← TokenService.createToken
                 (TokenValidation.userId validatedData)
                 (TokenValidation.scopes validatedData)
                 (TokenValidation.expiresInMinutes validatedData);
       response ← TokenService.serializeToken token;
       mret (NextResponse_json (TokenBody response) 201))
    (λ error,
       match error with
       | ZodError issues => mret (validationFailed issues)
       | _ =>
           _ ← console_error "Error creating token:";
           mret internalServerError
       end).

(** [tokens.map(serializeToken)]. *)
Fixpoint map_serializeToken (tokens : list TokenType.Token)
  : Eff (list TokenType.TokenResponse) :=
  match tokens with
  | [] => mret []
  | t :: rest =>
      r ← TokenService.serializeToken t;
      rs ← map_serializeToken rest;
      mret (r :: rs)
  end.

Definition getTokensController (request : NextRequest) : Eff NextResponse :=
  try_catch
    (authorized ← Auth.validateApiKey request;
     if negb authorized then mret unauthorized
     else
       let userId :=
         match searchParams request !! "userId" with
         | Some s => JS.JString s
         | None => JS.JNull
         end in
       validatedData ←
         parse TokenValidation.getTokensSchema
               (JS.JObject {[ "userId" := userId ]});
       tokens ← TokenService.getActiveTokensForUser
                  (TokenValidation.q_userId validatedData);
       responses ← map_serializeToken tokens;
       mret (NextResponse_json (TokensBody responses) 200))
    (λ error,
       match error with
       | ZodError issues => mret (validationFailed issues)
       | _ =>
           _ ← console_error "Error fetching tokens:";
           mret internalServerError
       end).

End TokenController.

(** ** Concrete worlds and requests used in the examples *)

Module Fixtures.
Import Runtime.

Definition nthByte (n : nat) : byte :=
  default Byte.x00 (Byte.of_N (N.of_nat n mod 256)).

(** A process in UTC with the API key ["secret"], an empty table, and a
    clock that reads 2025-01-01T10:00:00.000Z first and five milliseconds
    more at each further reading. *)
Definition w0 : World :=
  {| API_KEY := Some "secret"; TZ := JS.tzUTC;
     clock := λ n, 1735725600000 + 5 * Z.of_nat n; reads := 0;
     entropy := nthByte; drawn := 0;
     cuid := λ n, "c" +:+ pretty n; issued := 0;
     tokens := []; online := true; console := [] |}.

(** The token of the unit test of [serializeToken]. *)
Definition mockToken : TokenType.Token :=
  {| TokenType.id := "test_id";
     TokenType.token := "token_abc123";
     TokenType.userId := "user123";
     TokenType.scopes := ["read"; "write"];
     TokenType.createdAt := Some 1735725600000;
     TokenType.expiresAt := Some 1735729200000 |}.

(** A process in the zone [JS.tzEastern] whose clock reads
    2025-03-08T17:00:00.000Z (noon local time, the day before the clocks go
    forward). *)
Definition wEastern : World :=
  {| API_KEY := Some "secret"; TZ := JS.tzEastern;
     clock := λ _, 1741453200000; reads := 0;
     entropy := nthByte; drawn := 0;
     cuid := λ n, "c" +:+ pretty n; issued := 0;
     tokens := []; online := true; console := [] |}.

(** The same process when its clock reads 2025-11-02T06:15:00.000Z (01:15
    local time, a quarter of an hour after the clocks went back). *)
Definition wEasternFall : World :=
  {| API_KEY := Some "secret"; TZ := JS.tzEastern;
     clock := λ _, 1762064100000; reads := 0;
     entropy := nthByte; drawn := 0;
     cuid := λ n, "c" +:+ pretty n; issued := 0;
     tokens := []; online := true; console := [] |}.

Definition createBody (userId : JS.json) (scopes : JS.json)
    (expiresInMinutes : JS.json) : JS.json :=
  JS.JObject (<["userId" := userId]>
             (<["scopes" := scopes]>
             (<["expiresInMinutes" := expiresInMinutes]> ∅))).

Definition request (key : option string) (data : option JS.json)
  : Next.NextRequest :=
  {| Next.headers :=
       match key with
       | Some k => {[ "x-api-key" := k ]}
       | None => ∅
       end;
     Next.searchParams := ∅;
     Next.json := data |}.

(** Scenario A of the specification. *)
Definition scenarioA : JS.json :=
  createBody (JS.JString "user123")
             (JS.JArray [JS.JString "read"; JS.JString "write"])
             (JS.JNumber (JS.ofZ 60)).

(** The world after the create controller has served scenario A in [w0]:
    its table holds one row. *)
Definition wA : World :=
  snd (TokenController.createTokenController
         (request (Some "secret") (Some scenarioA)) w0).

(** The row that the call of scenario A stores. *)
Definition rowA : Row :=
  {| id := "c0"; token := "token_00010203-0405-4607-8809-0a0b0c0d0e0f";
     userId := "user123"; scopes := ["read"; "write"];
     createdAt := 1735725600005; expiresAt := 1735729200000 |}.

End Fixtures.

(** ** Notions the statements below are written with *)

(** A parse is accepted with the data [a] when it raises no issue. *)
Definition accepted {A} (r : Zod.ParseReturn A) (a : A) : Prop :=
  Zod.issues r = [] ∧ Zod.value r = Some a.

(** Whether [createTokenSchema] accepts [data], that is, whether
    [createTokenSchema.parse(data)] returns rather than throws. *)
Definition accepts (data : JS.json) : bool :=
  match Zod.safeParse TokenValidation.createTokenSchema data with
  | inr _ => true
  | inl _ => false
  end.

(** The time values a [Date] can hold: at most 8.64e15 milliseconds from
    the epoch on either side. *)
Definition validTime (t : Z) : Prop := - JS.maxTimeValue ≤ t ≤ JS.maxTimeValue.


(** The text [toISOString] gives for the valid time value [t]. *)
Definition isoOf (t : Z) : string := default "" (JS.toISOString (Some t)).

(** The wire form of a stored row. *)
Definition serialized (r : Runtime.Row) : TokenType.TokenResponse :=
  {| TokenType.r_id := Runtime.id r;
     TokenType.r_token := Runtime.token r;
     TokenType.r_userId := Runtime.userId r;
     TokenType.r_scopes := Runtime.scopes r;
     TokenType.r_createdAt := isoOf (Runtime.createdAt r);
     TokenType.r_expiresAt := isoOf (Runtime.expiresAt r) |}.

(** The shape the validator lets into the table: a non-empty [userId] and at
    least one scope, none of them empty. *)
Definition validated (r : Runtime.Row) : Prop :=
  Runtime.userId r ≠ ""
  ∧ Runtime.scopes r ≠ []
  ∧ Forall (λ s, s ≠ "") (Runtime.scopes r).

(** The date [calculateExpiryDate] computes in the world [w]. *)
Definition expiryIn (w : Runtime.World) (m : JS.number) : JS.Date :=
  JS.setMinutes (Runtime.TZ w) (Some (Runtime.clock w (Runtime.reads w)))
    (JS.add (JS.getMinutes (Runtime.TZ w)
               (Some (Runtime.clock w (Runtime.reads w)))) m).

(** The line [validateApiKey] writes when it lets a request through without
    a check. *)
Definition open_mode_warning : string :=
  "Warning: API_KEY not configured. Authentication is disabled.".

(** * Theorems *)

Import Runtime.

Lemma Returned_inj {A} (a b : A) : Returned a = Returned b → a = b.
Proof. by intros [= ->]. Qed.

(** ** Numbers and time arithmetic *)

Lemma ToIntegerOrInfinity_ofZ (z : Z) :
  JS.ToIntegerOrInfinity (JS.ofZ z) = Some z.
Proof.
  unfold JS.ToIntegerOrInfinity, JS.ofZ, Qc_of_Z; simpl. by rewrite Z.quot_1_r.
Qed.

Lemma add_ofZ (a b : Z) : JS.add (JS.ofZ a) (JS.ofZ b) = JS.ofZ (a + b).
Proof. unfold JS.add, JS.ofZ. by rewrite Z2Qc_inj_add. Qed.

Lemma time_decomposition (t : Z) :
  JS.Day t * JS.msPerDay
  + (((JS.HourFromTime t * JS.msPerHour + JS.MinFromTime t * JS.msPerMinute)
      + JS.SecFromTime t * JS.msPerSecond) + JS.msFromTime t) = t.
Proof.
  unfold JS.Day, JS.HourFromTime, JS.MinFromTime, JS.SecFromTime,
    JS.msFromTime, JS.msPerDay, JS.msPerHour, JS.msPerMinute, JS.msPerSecond.
  Z.div_mod_to_equations. lia.
Qed.

(** In a zone whose offset from UTC never changes, [setMinutes] with the
    current minutes plus [m] moves the time value by [m] minutes exactly. *)
Lemma setMinutes_fixed_offset (tz : JS.TimeZone) (offset t m : Z) :
  (∀ u isUTC, tz u isUTC = offset) →
  JS.setMinutes tz (Some t)
    (JS.add (JS.getMinutes tz (Some t)) (JS.ofZ m))
  = JS.TimeClip (Some (t + m * JS.msPerMinute)).
Proof.
  intros Htz. unfold JS.setMinutes, JS.getMinutes, JS.LocalTime, JS.UTC.
  rewrite add_ofZ. unfold JS.MakeTime. rewrite ToIntegerOrInfinity_ofZ.
  unfold JS.MakeDate. rewrite !Htz. f_equal. f_equal.
  pose proof (time_decomposition (t + offset)) as Hd. lia.
Qed.

Lemma calculateExpiryDate_fixed_offset (w : World) (offset m : Z) :
  (∀ u isUTC, TZ w u isUTC = offset) →
  TokenService.calculateExpiryDate (JS.ofZ m) w
  = (Returned (JS.TimeClip (Some (clock w (reads w) + m * JS.msPerMinute))),
     set_reads (S (reads w)) w).
Proof.
  intros Htz. unfold TokenService.calculateExpiryDate.
  unfold mbind, Eff_bind, new_Date, getMinutes, setMinutes. cbn [TZ set_reads].
  by rewrite (setMinutes_fixed_offset _ offset).
Qed.

(** ** C1: listing the active tokens of a user *)

#[local] Instance createdAt_desc_total : Total Prisma.createdAt_desc.
Proof. intros a b. unfold Prisma.createdAt_desc. lia. Qed.

#[local] Instance createdAt_desc_trans : Transitive Prisma.createdAt_desc.
Proof. intros a b c. unfold Prisma.createdAt_desc. lia. Qed.

Lemma getActiveTokensForUser_run (w : World) (u : string) :
  TokenService.getActiveTokensForUser u w
  = if online w
    then (Returned
            (Prisma.toToken <$>
               merge_sort Prisma.createdAt_desc
                 (filter (λ r, userId r = u ∧ clock w (reads w) < expiresAt r)
                         (tokens w))),
          set_reads (S (reads w)) w)
    else (Thrown PrismaClientInitializationError, set_reads (S (reads w)) w).
Proof.
  unfold TokenService.getActiveTokensForUser, mbind, Eff_bind, new_Date,
    Prisma.token_findMany.
  cbn [online set_reads tokens]. by destruct (online w).
Qed.

(** C1.  Let [now] be the reading of the clock that [getActiveTokensForUser]
    takes.  The table is the same after the call as before it.  The call
    returns exactly when the store can be reached, and then its result is the
    image of a list [rows] of stored rows that is a permutation of the rows of
    the table whose [userId] is the argument and whose [expiresAt] is strictly
    greater than [now] (so every such row is returned, as often as it is
    stored, and no other), in non-increasing order of [createdAt].  No row
    returned has [expiresAt <= now].  The result can be empty: it is for a
    table without rows. *)
Theorem getActiveTokensForUser_spec (w : World) (u : string) :
  let now := clock w (reads w) in
  let active := filter (λ r, userId r = u ∧ now < expiresAt r) (tokens w) in
  tokens (snd (TokenService.getActiveTokensForUser u w)) = tokens w
  ∧ match fst (TokenService.getActiveTokensForUser u w) with
    | Returned result =>
        online w = true
        ∧ ∃ rows,
            result = Prisma.toToken <$> rows
            ∧ rows ≡ₚ active
            ∧ StronglySorted Prisma.createdAt_desc rows
            ∧ Forall (λ r, r ∈ tokens w ∧ userId r = u ∧ ¬ expiresAt r ≤ now)
                     rows
    | Thrown e => online w = false ∧ e = PrismaClientInitializationError
    end
  ∧ fst (TokenService.getActiveTokensForUser u (set_tokens [] Fixtures.w0))
    = Returned [].
Proof.
  intros now active. rewrite getActiveTokensForUser_run.
  split; [by destruct (online w)|]. split; [|reflexivity].
  destruct (online w); cbn [fst]; [|done].
  split; [done|]. eexists. split; [reflexivity|].
  fold now. fold active.
  split; [apply merge_sort_Permutation|].
  split; [apply (StronglySorted_merge_sort _)|].
  apply Forall_forall. intros r Hr.
  rewrite merge_sort_Permutation in Hr.
  apply list_elem_of_filter in Hr as [[? ?] ?]. repeat split; [done..|lia].
Qed.

(** ** C2: the timestamps of a created token *)

Lemma generateTokenString_run (w : World) :
  TokenService.generateTokenString w
  = (Returned ("token_" +:+ JS.uuidOfRandom (nextBytes 16 w)),
     set_drawn (drawn w + 16)%nat w).
Proof. reflexivity. Qed.

(** What [createToken] does in a zone of fixed offset, step by step. *)
Lemma createToken_run (w : World) (offset m : Z) (userId : string)
    (scopes : list string) :
  (∀ u isUTC, TZ w u isUTC = offset) →
  TokenService.createToken userId scopes (JS.ofZ m) w
  = Prisma.token_create
      ("token_" +:+ JS.uuidOfRandom (nextBytes 16 w))
      userId scopes
      (JS.TimeClip (Some (clock w (reads w) + m * JS.msPerMinute)))
      (set_reads (S (reads w)) (set_drawn (drawn w + 16)%nat w)).
Proof.
  intros Htz. unfold TokenService.createToken.
  unfold mbind at 1. unfold Eff_bind at 1. rewrite generateTokenString_run.
  unfold mbind at 1. unfold Eff_bind at 1.
  rewrite (calculateExpiryDate_fixed_offset _ offset) by (intros; apply Htz).
  cbn [clock reads set_drawn].
  unfold mbind, Eff_bind, mret, Eff_ret.
  by destruct (Prisma.token_create _ _ _ _ _) as [[?|?] ?].
Qed.

(** [createToken] returns a record whenever the store can be reached, the
    expiry is a valid time value, and neither the identifier the client
    assigns nor the generated token string is in the table yet. *)
Lemma createToken_returns (w : World) (offset m : Z) (userId : string)
    (scopes : list string) :
  (∀ u isUTC, TZ w u isUTC = offset) →
  validTime (clock w (reads w) + m * JS.msPerMinute) →
  online w = true →
  cuid w (issued w) ∉ id <$> tokens w →
  "token_" +:+ JS.uuidOfRandom (nextBytes 16 w) ∉ token <$> tokens w →
  ∃ tok, fst (TokenService.createToken userId scopes (JS.ofZ m) w)
         = Returned tok.
Proof.
  intros Htz Hvalid Honline Hid Htoken.
  rewrite (createToken_run _ offset) by done.
  unfold Prisma.token_create, JS.TimeClip.
  destruct (Z.ltb_spec JS.maxTimeValue
              (Z.abs (clock w (reads w) + m * JS.msPerMinute)))
    as [Hbig|_]; [unfold validTime in Hvalid; lia|].
  cbn [online set_reads set_drawn tokens cuid issued id].
  rewrite Honline. cbn [negb].
  rewrite !bool_decide_eq_false_2 by done. cbn [orb fst]. eauto.
Qed.

(** C2, as amended.  Let the process run in a zone of fixed offset from UTC.
    Whenever [createToken] returns a record, [expiresAt] is the reading [now]
    of the clock taken by the expiry calculator plus the requested minutes,
    [createdAt] is the next reading of the clock, taken by the store when it
    inserts the row, and so [expiresAt - createdAt] is the requested duration
    less the time that passed between the two readings.  The row appended to
    the table carries the same two timestamps. *)
Theorem createToken_timestamps (w : World) (offset m : Z) (userId : string)
    (scopes : list string) (tok : TokenType.Token) :
  (∀ u isUTC, TZ w u isUTC = offset) →
  fst (TokenService.createToken userId scopes (JS.ofZ m) w) = Returned tok →
  let now := clock w (reads w) in
  let inserted := clock w (S (reads w)) in
  TokenType.expiresAt tok = Some (now + m * JS.msPerMinute)
  ∧ TokenType.createdAt tok = Some inserted
  ∧ ∃ row,
      tokens (snd (TokenService.createToken userId scopes (JS.ofZ m) w))
      = tokens w ++ [row]
      ∧ Prisma.toToken row = tok
      ∧ expiresAt row - createdAt row
        = m * JS.msPerMinute - (inserted - now).
Proof.
  intros Htz Hrun now inserted.
  rewrite (createToken_run _ offset) in Hrun |- * by done.
  unfold Prisma.token_create in Hrun |- *.
  unfold JS.TimeClip in Hrun |- *.
  destruct (JS.maxTimeValue <? _); [done|].
  cbn [online set_reads set_drawn negb] in Hrun |- *.
  destruct (negb (online w)); [done|].
  match type of Hrun with
  | context [if ?c then _ else _] => destruct c; [done|]
  end.
  cbn [fst snd] in Hrun |- *. injection Hrun as <-.
  cbn [tokens set_issued set_reads set_tokens set_drawn clock reads].
  fold now inserted.
  split; [done|]. split; [done|].
  eexists. split; [reflexivity|]. split; [reflexivity|].
  cbn [expiresAt createdAt]. lia.
Qed.

Lemma createToken_timestamps_witness :
  ∃ tok,
    fst (TokenService.createToken "user123" ["read"; "write"] (JS.ofZ 60)
           Fixtures.w0) = Returned tok
    ∧ TokenType.expiresAt tok = Some (1735725600000 + 60 * JS.msPerMinute)
    ∧ TokenType.createdAt tok = Some 1735725600005.
Proof.
  eexists. split; [reflexivity|].
  pose proof (createToken_timestamps Fixtures.w0 0 60 "user123"
                ["read"; "write"] _ (λ _ _, eq_refl) eq_refl) as H.
  split; [apply H | apply H].
Defined.

(** C2, as stated, fails: in [Fixtures.w0] five milliseconds pass between the
    reading of the clock that fixes [expiresAt] and the store's insertion
    timestamp, and the record created for sixty minutes has its two
    timestamps 3599995 milliseconds apart. *)
Lemma createToken_duration_not_exact :
  ¬ (∀ (w : World) (userId : string) (scopes : list string) (m : Z)
       (tok : TokenType.Token),
       0 < m →
       fst (TokenService.createToken userId scopes (JS.ofZ m) w) = Returned tok →
       ∃ c e, TokenType.createdAt tok = Some c
              ∧ TokenType.expiresAt tok = Some e
              ∧ e - c = m * JS.msPerMinute).
Proof.
  intros H.
  destruct (H Fixtures.w0 "user123" ["read"; "write"] 60 _ eq_refl eq_refl)
    as (c & e & Hc & He & Hd).
  vm_compute in Hc, He. injection Hc as <-. injection He as <-.
  vm_compute in Hd. discriminate.
Qed.

(** ** C3: the expiry predicate *)

(** C3.  With [t] the reading of the clock that [isTokenExpired] takes and [e]
    the expiry instant, the predicate returns whether [t > e]: it returns true
    exactly when [t > e], false when the two are equal, true one millisecond
    after [e] and false one millisecond before it.  (The last three are
    stated with [e] taken relative to the reading [t].) *)
Theorem isTokenExpired_strict (w : World) (e : Z) :
  let t := clock w (reads w) in
  fst (TokenService.isTokenExpired (Some e) w) = Returned (bool_decide (t > e))
  ∧ (fst (TokenService.isTokenExpired (Some e) w) = Returned true ↔ t > e)
  ∧ fst (TokenService.isTokenExpired (Some t) w) = Returned false
  ∧ fst (TokenService.isTokenExpired (Some (t - 1)) w) = Returned true
  ∧ fst (TokenService.isTokenExpired (Some (t + 1)) w) = Returned false.
Proof.
  intros t.
  assert (Hrun : ∀ x, fst (TokenService.isTokenExpired (Some x) w)
                      = Returned (bool_decide (t > x))).
  { intros x. unfold TokenService.isTokenExpired, mbind, Eff_bind, new_Date.
    simpl. f_equal. fold t.
    destruct (Z.ltb_spec x t); case_bool_decide; done || lia. }
  split; [apply Hrun|]. split.
  - rewrite Hrun. split.
    + intros [= H]. by apply bool_decide_eq_true in H.
    + intros H. f_equal. by apply bool_decide_eq_true.
  - rewrite !Hrun. repeat split; f_equal; case_bool_decide; done || lia.
Qed.

(** ** C4: the expiry calculator *)

(** C4.  In the zone [JS.tzEastern] the minutes are added to the local
    wall-clock time, and the result is not the reading [t] of the clock plus
    the minutes.  At 2025-03-08T17:00:00.000Z a lifetime of 1440 minutes
    gives 2025-03-09T16:00:00.000Z, which is [t] plus 1380 minutes: the night
    in between is one hour short.  At 2025-11-02T06:15:00.000Z, in the hour
    that the local clocks show twice, a lifetime of 30 minutes gives
    2025-11-02T05:45:00.000Z, which is 30 minutes before [t]. *)
Theorem calculateExpiryDate_across_dst :
  (let t := clock Fixtures.wEastern (reads Fixtures.wEastern) in
   fst (TokenService.calculateExpiryDate (JS.ofZ 1440) Fixtures.wEastern)
   = Returned (Some (t + 1380 * JS.msPerMinute))
   ∧ fst (TokenService.calculateExpiryDate (JS.ofZ 1440) Fixtures.wEastern)
     ≠ Returned (Some (t + 1440 * JS.msPerMinute)))
  ∧ (let t := clock Fixtures.wEasternFall (reads Fixtures.wEasternFall) in
     fst (TokenService.calculateExpiryDate (JS.ofZ 30) Fixtures.wEasternFall)
     = Returned (Some (t - 30 * JS.msPerMinute))
     ∧ fst (TokenService.isTokenExpired (Some (t - 30 * JS.msPerMinute))
              Fixtures.wEasternFall)
       = Returned true).
Proof.
  split; (split; [vm_compute; reflexivity|]).
  - vm_compute. discriminate.
  - vm_compute. reflexivity.
Qed.

(** ** C5: the validator of the create request *)

Lemma safeParse_accepted {A} (schema : Zod.ZodType A) (data : JS.json) (a : A) :
  Zod.safeParse schema data = inr a ↔ accepted (schema [] (Some data)) a.
Proof.
  unfold Zod.safeParse, accepted.
  destruct (schema [] (Some data)) as [[|i raised] [v|]]; cbn; naive_solver.
Qed.

Lemma accepted_string p v (s : string) :
  accepted (Zod.string p v) s ↔ v = Some (JS.JString s).
Proof.
  unfold accepted, Zod.string, Zod.invalid_type, Zod.OK.
  destruct v as [[]|]; cbn; naive_solver.
Qed.

Lemma accepted_number p v (n : JS.number) :
  accepted (Zod.number p v) n ↔ v = Some (JS.JNumber n) ∧ n ≠ JS.NaN.
Proof.
  unfold accepted, Zod.number, Zod.invalid_type, Zod.OK.
  destruct v as [[| |[]| | |]|]; cbn; naive_solver.
Qed.

Lemma accepted_check {A} (holds : A → bool) msg (schema : Zod.ZodType A) p v a :
  accepted (Zod.check holds msg schema p v) a
  ↔ accepted (schema p v) a ∧ holds a = true.
Proof.
  unfold accepted, Zod.check.
  destruct (schema p v) as [raised [x|]]; cbn; [|naive_solver].
  destruct (holds x) eqn:Hx; cbn.
  - naive_solver.
  - split.
    + intros [Hnil _]. by destruct raised.
    + intros [[_ [= ->]] ?]. congruence.
Qed.

Lemma accepted_map {A B} (f : A → B) r b :
  accepted (Zod.map f r) b ↔ ∃ a, accepted r a ∧ b = f a.
Proof.
  unfold accepted, Zod.map. destruct r as [raised [x|]]; cbn; naive_solver.
Qed.

Lemma accepted_ap {A B} (rf : Zod.ParseReturn (A → B)) r b :
  accepted (Zod.ap rf r) b ↔ ∃ f a, accepted rf f ∧ accepted r a ∧ b = f a.
Proof.
  unfold accepted, Zod.ap.
  destruct rf as [raised1 [f|]], r as [raised2 [x|]]; cbn;
    rewrite ?app_nil; naive_solver.
Qed.

Lemma accepted_object {A} shape p v (a : A) :
  accepted (Zod.object shape p v) a
  ↔ ∃ o, v = Some (JS.JObject o) ∧ accepted (shape p o) a.
Proof.
  unfold Zod.object, Zod.invalid_type.
  destruct v as [[]|]; try (unfold accepted at 1; cbn; naive_solver).
  naive_solver.
Qed.

Lemma accepted_elements {A} (g : nat → JS.json → Zod.ParseReturn A)
    (P : JS.json → A → Prop) (js : list JS.json) (l : list A) :
  (∀ i j a, accepted (g i j) a ↔ P j a) →
  accepted (foldr Zod.merge (Zod.OK []) (imap g js)) l ↔ Forall2 P js l.
Proof.
  revert g l. induction js as [|j js IH]; intros g l Hg.
  - cbn. unfold accepted, Zod.OK; cbn. split.
    + intros [_ [= <-]]. constructor.
    + intros H. by inversion H.
  - rewrite imap_cons. cbn [foldr].
    set (rest := foldr Zod.merge (Zod.OK []) (imap (g ∘ S) js)).
    assert (Hrest : ∀ l', accepted rest l' ↔ Forall2 P js l').
    { intros l'. apply IH. intros i j' a. apply Hg. }
    clearbody rest. split.
    + unfold accepted at 1, Zod.merge. cbn. intros [Hnil Hval].
      apply app_eq_nil in Hnil as [H1 H2].
      destruct (Zod.value (g 0%nat j)) as [a|] eqn:Ha; [|done].
      destruct (Zod.value rest) as [l'|] eqn:Hl'; [|done].
      injection Hval as <-. constructor.
      * by apply (Hg 0%nat).
      * by apply Hrest.
    + intros H. inversion H as [|? a ? l' Ha Hl']; subst.
      apply (Hg 0%nat) in Ha as [Ha1 Ha2]. apply Hrest in Hl' as [Hl1 Hl2].
      unfold accepted, Zod.merge. cbn. by rewrite Ha1, Hl1, Ha2, Hl2.
Qed.

Lemma accepted_array {A} (element : Zod.ZodType A)
    (P : JS.json → A → Prop) p v (l : list A) :
  (∀ q j a, accepted (element q (Some j)) a ↔ P j a) →
  accepted (Zod.array element p v) l
  ↔ ∃ js, v = Some (JS.JArray js) ∧ Forall2 P js l.
Proof.
  intros He. unfold Zod.array, Zod.invalid_type.
  destruct v as [[]|]; try (unfold accepted at 1; cbn; naive_solver).
  rewrite (accepted_elements _ P); [naive_solver|].
  intros i j a. apply He.
Qed.

Lemma isInteger_ofZ (x : JS.number) :
  JS.isInteger x = true ↔ ∃ m, x = JS.ofZ m.
Proof.
  split.
  - destruct x as [| |q]; cbn; [done..|]. intros H.
    apply bool_decide_eq_true in H. exists (Qnum (this q)).
    unfold JS.ofZ. f_equal. apply Qc_is_canon.
    destruct q as [[n d] Hq]. cbn in *. subst d. reflexivity.
  - intros [m ->]. reflexivity.
Qed.

Lemma lt_ofZ (a b : Z) : JS.lt (JS.ofZ a) (JS.ofZ b) = bool_decide (a < b).
Proof.
  cbn. apply bool_decide_ext. symmetry. apply Z2Qc_inj_lt.
Qed.

Lemma le_ofZ (a b : Z) : JS.le (JS.ofZ a) (JS.ofZ b) = bool_decide (a ≤ b).
Proof.
  cbn. apply bool_decide_ext. symmetry. apply Z2Qc_inj_le.
Qed.


Lemma accepted_userId p v (s : string) :
  accepted ((Zod.string .> Zod.min 1 "userId must not be empty") p v) s
  ↔ v = Some (JS.JString s) ∧ (1 ≤ String.length s)%nat.
Proof.
  unfold Zod.min. rewrite accepted_check, accepted_string.
  unfold Zod.lengthOf, Zod.string_length. by rewrite Nat.leb_le.
Qed.

Lemma accepted_scopes p v (l : list string) :
  accepted
    ((Zod.array
        (Zod.string .> Zod.min 1 "Each scope must be a non-empty string")
        .> Zod.min 1 "At least one scope is required") p v) l
  ↔ (∃ js, v = Some (JS.JArray js)
           ∧ Forall2 (λ j s, j = JS.JString s ∧ (1 ≤ String.length s)%nat) js l)
    ∧ (1 ≤ length l)%nat.
Proof.
  unfold Zod.min at 1. rewrite accepted_check.
  rewrite (accepted_array _
             (λ j s, j = JS.JString s ∧ (1 ≤ String.length s)%nat)).
  - unfold Zod.lengthOf, Zod.array_length. by rewrite Nat.leb_le.
  - intros q j a. unfold Zod.min. rewrite accepted_check, accepted_string.
    unfold Zod.lengthOf, Zod.string_length. rewrite Nat.leb_le. naive_solver.
Qed.

Lemma accepted_expiresInMinutes p v (x : JS.number) :
  accepted
    ((Zod.number
        .> Zod.int "expiresInMinutes must be an integer"
        .> Zod.positive "expiresInMinutes must be positive"
        .> Zod.max 525600
             "expiresInMinutes cannot exceed 1 year (525600 minutes)") p v) x
  ↔ v = Some (JS.JNumber x) ∧ ∃ m, x = JS.ofZ m ∧ 0 < m ≤ 525600.
Proof.
  unfold Zod.max, Zod.positive, Zod.int.
  rewrite !accepted_check, accepted_number, isInteger_ofZ. split.
  - intros [[[[-> _] [m ->]] Hpos] Hmax]. split; [done|]. exists m.
    rewrite lt_ofZ in Hpos. rewrite le_ofZ in Hmax.
    apply bool_decide_eq_true in Hpos, Hmax. done.
  - intros [-> (m & -> & Hm)]. rewrite lt_ofZ, le_ofZ.
    repeat split; eauto; try done; apply bool_decide_eq_true; lia.
Qed.

Lemma createTokenSchema_accepted (data : JS.json)
    (input : TokenValidation.CreateTokenInput) :
  Zod.safeParse TokenValidation.createTokenSchema data = inr input
  ↔ ∃ o,
      data = JS.JObject o
      ∧ (o !! "userId" = Some (JS.JString (TokenValidation.userId input))
         ∧ (1 ≤ String.length (TokenValidation.userId input))%nat)
      ∧ ((∃ js, o !! "scopes" = Some (JS.JArray js)
                ∧ Forall2 (λ j s, j = JS.JString s ∧ (1 ≤ String.length s)%nat)
                          js (TokenValidation.scopes input))
         ∧ (1 ≤ length (TokenValidation.scopes input))%nat)
      ∧ (o !! "expiresInMinutes"
         = Some (JS.JNumber (TokenValidation.expiresInMinutes input))
         ∧ ∃ m, TokenValidation.expiresInMinutes input = JS.ofZ m
                ∧ 0 < m ≤ 525600).
Proof.
  rewrite safeParse_accepted. unfold TokenValidation.createTokenSchema.
  rewrite accepted_object. cbn [app]. split.
  - intros (o & [= ->] & H). exists o. split; [done|].
    apply accepted_ap in H as (f & x & H & Hx & ->).
    apply accepted_ap in H as (g & ss & H & Hss & ->).
    apply accepted_map in H as (u & Hu & ->).
    cbn. unfold Zod.property in *.
    apply accepted_userId in Hu. apply accepted_scopes in Hss.
    apply accepted_expiresInMinutes in Hx. done.
  - intros (o & -> & Hu & Hss & Hx). exists o. split; [done|].
    destruct input as [u ss x]. cbn in *.
    apply accepted_ap. eexists _, x. split; [|split; [|reflexivity]].
    + apply accepted_ap. eexists _, ss. split; [|split; [|reflexivity]].
      * apply accepted_map. exists u. split; [|reflexivity].
        by apply accepted_userId.
      * by apply accepted_scopes.
    + by apply accepted_expiresInMinutes.
Qed.

Lemma accepts_true (data : JS.json) :
  accepts data = true
  ↔ ∃ input, Zod.safeParse TokenValidation.createTokenSchema data = inr input.
Proof.
  unfold accepts.
  destruct (Zod.safeParse _ data) as [raised|input]; split;
    try done; eauto; by intros [? ?].
Qed.

Lemma rejects_when (data : JS.json) :
  (∀ input, Zod.safeParse TokenValidation.createTokenSchema data ≠ inr input) →
  accepts data = false.
Proof.
  intros H. apply not_true_is_false. rewrite accepts_true. by intros [? ?%H].
Qed.

(** C5.  The schema accepts [data] exactly when [data] is an object whose
    [userId] is a string of length at least 1, whose [scopes] is an array of
    length at least 1 of strings of length at least 1, and whose
    [expiresInMinutes] is an integer [m] with [0 < m <= 525600]; the parsed
    data then carries these three values.  In particular 525600 is accepted
    and 525601, 0, -1 and 60.5 are rejected; so is every number [x <= 0],
    every number that is not an integer, an empty [scopes] array, a [scopes]
    array with an empty string anywhere in it, and an empty [userId]. *)
Theorem createTokenSchema_validation :
  (∀ data,
     accepts data = true
     ↔ ∃ o u js m,
         data = JS.JObject o
         ∧ o !! "userId" = Some (JS.JString u) ∧ (1 ≤ String.length u)%nat
         ∧ o !! "scopes" = Some (JS.JArray js) ∧ (1 ≤ length js)%nat
         ∧ Forall (λ j, ∃ s, j = JS.JString s ∧ (1 ≤ String.length s)%nat) js
         ∧ o !! "expiresInMinutes" = Some (JS.JNumber (JS.ofZ m))
         ∧ 0 < m ≤ 525600)
  ∧ (∀ data input,
       Zod.safeParse TokenValidation.createTokenSchema data = inr input →
       ∃ o, data = JS.JObject o
            ∧ o !! "userId" = Some (JS.JString (TokenValidation.userId input))
            ∧ o !! "scopes"
              = Some (JS.JArray (JS.JString <$> TokenValidation.scopes input))
            ∧ o !! "expiresInMinutes"
              = Some (JS.JNumber (TokenValidation.expiresInMinutes input)))
  ∧ (let body x :=
       Fixtures.createBody (JS.JString "user123") (JS.JArray [JS.JString "read"])
                           (JS.JNumber x) in
     accepts (body (JS.ofZ 525600)) = true
     ∧ accepts (body (JS.ofZ 525601)) = false
     ∧ accepts (body (JS.ofZ 0)) = false
     ∧ accepts (body (JS.ofZ (-1))) = false
     ∧ accepts (body (JS.Finite (Q2Qc (121 # 2)))) = false)
  ∧ (∀ o x, o !! "expiresInMinutes" = Some (JS.JNumber x) →
            JS.le x (JS.ofZ 0) = true → accepts (JS.JObject o) = false)
  ∧ (∀ o x, o !! "expiresInMinutes" = Some (JS.JNumber x) →
            JS.isInteger x = false → accepts (JS.JObject o) = false)
  ∧ (∀ o, o !! "scopes" = Some (JS.JArray []) → accepts (JS.JObject o) = false)
  ∧ (∀ o js, o !! "scopes" = Some (JS.JArray js) → JS.JString "" ∈ js →
             accepts (JS.JObject o) = false)
  ∧ (∀ o, o !! "userId" = Some (JS.JString "") → accepts (JS.JObject o) = false).
Proof.
  assert (Hscopes : ∀ js (l : list string),
            Forall2 (λ j s, j = JS.JString s ∧ (1 ≤ String.length s)%nat) js l
            → js = JS.JString <$> l
              ∧ Forall (λ j, ∃ s, j = JS.JString s ∧ (1 ≤ String.length s)%nat)
                       js).
  { induction 1 as [|j s js l [-> Hs] _ [-> IH]]; [by split|].
    split; [done|]. constructor; eauto. }
  split; [|split; [|split; [by split_and!|split_and!]]].
  - intros data. rewrite accepts_true. split.
    + intros [input (o & -> & [Hu ?] & [(js & Hjs & Hall) Hlen] & Hx & m & Hm & ?)
               %createTokenSchema_accepted].
      destruct (Hscopes _ _ Hall) as [-> Hall'].
      exists o, (TokenValidation.userId input),
        (JS.JString <$> TokenValidation.scopes input), m.
      rewrite length_fmap, <- Hm. done.
    + intros (o & u & js & m & -> & Hu & Hlu & Hjs & Hlen & Hall & Hx & Hm).
      assert (∃ l, Forall2
                (λ j s, j = JS.JString s ∧ (1 ≤ String.length s)%nat) js l)
        as [l Hl].
      { clear Hjs Hlen. induction Hall as [|j js (s & -> & Hs) _ [l IH]].
        - exists []. constructor.
        - exists (s :: l). by constructor. }
      exists {| TokenValidation.userId := u; TokenValidation.scopes := l;
                TokenValidation.expiresInMinutes := JS.ofZ m |}.
      apply createTokenSchema_accepted. exists o. cbn.
      rewrite <- (Forall2_length _ _ _ Hl).
      repeat split; try done; [by exists js | by exists m].
  - intros data input
      (o & -> & [Hu ?] & [(js & Hjs & Hall) Hlen] & Hx & _)
      %createTokenSchema_accepted.
    destruct (Hscopes _ _ Hall) as [-> _]. eauto.
  - intros o x Hx Hle. apply rejects_when. intros input
      (o' & [= <-] & _ & _ & Hx' & m & Hm & ?)%createTokenSchema_accepted.
    rewrite Hx in Hx'. injection Hx' as ->. rewrite Hm, le_ofZ in Hle.
    apply bool_decide_eq_true in Hle. lia.
  - intros o x Hx Hint. apply rejects_when. intros input
      (o' & [= <-] & _ & _ & Hx' & m & Hm & ?)%createTokenSchema_accepted.
    rewrite Hx in Hx'. injection Hx' as ->. by rewrite Hm in Hint.
  - intros o Hs. apply rejects_when. intros input
      (o' & [= <-] & _ & [(js & Hjs & Hall) Hlen] & _)%createTokenSchema_accepted.
    rewrite Hs in Hjs. injection Hjs as <-.
    apply Forall2_nil_inv_l in Hall. rewrite Hall in Hlen. cbn in Hlen. lia.
  - intros o js Hs Hin. apply rejects_when. intros input
      (o' & [= <-] & _ & [(js' & Hjs & Hall) Hlen] & _)%createTokenSchema_accepted.
    rewrite Hs in Hjs. injection Hjs as <-.
    destruct (Hscopes _ _ Hall) as [_ Hall'].
    rewrite Forall_forall in Hall'.
    destruct (Hall' _ Hin) as (s & [= <-] & Hlen'). cbn in Hlen'. lia.
  - intros o Hu. apply rejects_when. intros input
      (o' & [= <-] & [Hu' Hlen] & _)%createTokenSchema_accepted.
    rewrite Hu in Hu'. injection Hu' as Hu'. rewrite <- Hu' in Hlen.
    cbn in Hlen. lia.
Qed.

(** ** C6 and C9: the API key gate *)

Lemma validateApiKey_run (w : World) (request : Next.NextRequest) :
  Auth.validateApiKey request w
  = if JS.truthy (API_KEY w)
    then (Returned
            (JS.strictEquals (Next.headers_get request "X-API-Key") (API_KEY w)),
          w)
    else (Returned true,
          set_console (console w ++ [(Warn, open_mode_warning)]) w).
Proof.
  unfold Auth.validateApiKey, mbind, Eff_bind, process_env_API_KEY.
  by destruct (JS.truthy (API_KEY w)).
Qed.

Lemma truthy_nonempty (k : string) : k ≠ "" → JS.truthy (Some k) = true.
Proof.
  intros Hk. unfold JS.truthy. apply negb_true_iff.
  by apply String.eqb_neq.
Qed.

(** C6.  Let [presented] be the value of the [X-API-Key] header of the
    request, if it has one.  When no key is configured, which for the guard
    [!expectedApiKey] means that [process.env.API_KEY] is unset or empty,
    [validateApiKey] returns true whatever is presented.  When a key [k] is
    configured (a non-empty string), [validateApiKey] returns whether
    [presented] is that very string: true exactly when the header is present
    and equal to [k], and false in particular when the header is absent. *)
Theorem validateApiKey_gate (w : World) (request : Next.NextRequest) :
  let presented := Next.headers_get request "X-API-Key" in
  (API_KEY w = None ∨ API_KEY w = Some "" →
   fst (Auth.validateApiKey request w) = Returned true)
  ∧ (∀ k, API_KEY w = Some k → k ≠ "" →
       fst (Auth.validateApiKey request w)
       = Returned (bool_decide (presented = Some k))
       ∧ (fst (Auth.validateApiKey request w) = Returned true
          ↔ presented = Some k)
       ∧ (presented = None →
          fst (Auth.validateApiKey request w) = Returned false)).
Proof.
  intros presented. rewrite validateApiKey_run. split.
  - by intros [-> | ->].
  - intros k -> Hk. rewrite (truthy_nonempty k Hk). cbn [fst]. fold presented.
    assert (Heq : JS.strictEquals presented (Some k)
                  = bool_decide (presented = Some k)).
    { destruct presented as [p|]; cbn [JS.strictEquals]; [|done].
      destruct (String.eqb_spec p k) as [->|Hne].
      - by rewrite bool_decide_eq_true_2.
      - rewrite bool_decide_eq_false_2; [done|congruence]. }
    rewrite Heq. split; [done|]. split.
    + split.
      * intros [= H]. by apply bool_decide_eq_true in H.
      * intros H. by rewrite bool_decide_eq_true_2.
    + intros ->. done.
Qed.

(** C9.  When [process.env.API_KEY] is the empty string, [validateApiKey]
    returns true for every request, whether it presents a key or not, and
    writes the warning of the open mode: it behaves as when the variable is
    unset, and does not ask for an empty key. *)
Theorem validateApiKey_empty_key (w : World) (request : Next.NextRequest) :
  Auth.validateApiKey request (set_API_KEY (Some "") w)
  = (Returned true,
     set_console (console w ++ [(Warn, open_mode_warning)])
       (set_API_KEY (Some "") w))
  ∧ fst (Auth.validateApiKey request (set_API_KEY (Some "") w))
    = fst (Auth.validateApiKey request (set_API_KEY None w)).
Proof. by rewrite !validateApiKey_run. Qed.

(** ** C7: serialization *)

Lemma YearFromTime_spec (t : Z) :
  JS.DayFromYear (JS.YearFromTime t) ≤ JS.Day t
  < JS.DayFromYear (JS.YearFromTime t + 1).
Proof.
  unfold JS.YearFromTime.
  generalize (JS.Day t). intros d.
  set (y := 1970 + (400 * d) / 146097).
  assert (Hy : 146097 * (y - 1970) ≤ 400 * d < 146097 * (y - 1970) + 146097).
  { unfold y. Z.div_mod_to_equations. lia. }
  clearbody y.
  destruct (Z.ltb_spec d (JS.DayFromYear y));
    [|destruct (Z.leb_spec (JS.DayFromYear (y + 1)) d)];
    unfold JS.DayFromYear in *; Z.div_mod_to_equations; lia.
Qed.

Lemma DayFromYear_mono (y y' : Z) :
  y ≤ y' → JS.DayFromYear y ≤ JS.DayFromYear y'.
Proof.
  intros Hy. unfold JS.DayFromYear. Z.div_mod_to_equations. lia.
Qed.

(** [YearFromTime t] is the largest year that starts at or before [t]. *)
Lemma YearFromTime_largest (t y : Z) :
  JS.TimeFromYear y ≤ t ↔ y ≤ JS.YearFromTime t.
Proof.
  pose proof (YearFromTime_spec t) as [Hlo Hhi].
  assert (Hday : JS.TimeFromYear y ≤ t ↔ JS.DayFromYear y ≤ JS.Day t).
  { unfold JS.TimeFromYear, JS.Day, JS.msPerDay.
    generalize (JS.DayFromYear y). intros d. Z.div_mod_to_equations. lia. }
  rewrite Hday. split.
  - intros H. destruct (Z.le_gt_cases y (JS.YearFromTime t)) as [|Hgt]; [done|].
    pose proof (DayFromYear_mono (JS.YearFromTime t + 1) y ltac:(lia)). lia.
  - intros H. pose proof (DayFromYear_mono y (JS.YearFromTime t) H). lia.
Qed.

Lemma DaysInYear_spec (y : Z) :
  JS.DayFromYear (y + 1) - JS.DayFromYear y = JS.DaysInYear y.
Proof.
  unfold JS.DaysInYear, JS.DayFromYear.
  destruct (Z.eqb_spec (y mod 4) 0), (Z.eqb_spec (y mod 100) 0),
    (Z.eqb_spec (y mod 400) 0); cbn [negb]; Z.div_mod_to_equations; lia.
Qed.

Lemma leapOfYear_cases (y : Z) :
  (JS.leapOfYear y = 0 ∧ JS.DaysInYear y = 365)
  ∨ (JS.leapOfYear y = 1 ∧ JS.DaysInYear y = 366).
Proof.
  unfold JS.leapOfYear, JS.DaysInYear.
  repeat case_match; cbn in *; auto; lia.
Qed.

Lemma DayWithinYear_range (t : Z) :
  0 ≤ JS.DayWithinYear t < 365 + JS.InLeapYear t.
Proof.
  unfold JS.DayWithinYear.
  pose proof (YearFromTime_spec t). pose proof (DaysInYear_spec (JS.YearFromTime t)).
  change (JS.InLeapYear t) with (JS.leapOfYear (JS.YearFromTime t)).
  destruct (leapOfYear_cases (JS.YearFromTime t)) as [[-> ?]|[-> ?]]; lia.
Qed.

(** Looks the month after a literal month up in [JS.daysBeforeMonth]. *)
Ltac table_lookup :=
  repeat match goal with
         | |- context [JS.daysBeforeMonth (?a + 1) ?l] =>
             let v := eval vm_compute in (a + 1) in
             change (JS.daysBeforeMonth (a + 1) l)
               with (JS.daysBeforeMonth v l)
         end;
  cbn [JS.daysBeforeMonth].

(** The month and the date of [t] locate its day within the year. *)
Lemma month_date_spec (t : Z) :
  let leap := JS.leapOfYear (JS.YearFromTime t) in
  0 ≤ JS.MonthFromTime t ≤ 11
  ∧ 1 ≤ JS.DateFromTime t ≤ JS.DaysInMonth (JS.YearFromTime t) (JS.MonthFromTime t)
  ∧ JS.daysBeforeMonth (JS.MonthFromTime t) leap + JS.DateFromTime t - 1
    = JS.DayWithinYear t.
Proof.
  intros leap. pose proof (DayWithinYear_range t) as Hd.
  change (JS.InLeapYear t) with leap in Hd.
  unfold JS.DateFromTime, JS.DaysInMonth, JS.MonthFromTime.
  change (JS.InLeapYear t) with leap. fold leap.
  assert (leap = 0 ∨ leap = 1) as Hleap
    by (destruct (leapOfYear_cases (JS.YearFromTime t)) as [[? _]|[? _]]; auto).
  generalize dependent (JS.DayWithinYear t). intros d Hd.
  repeat (match goal with
          | |- context [if ?x <? ?y then _ else _] => destruct (Z.ltb_spec x y)
          end;
          [table_lookup; lia|]).
  table_lookup. lia.
Qed.

Lemma digitValue_digitChar (d : Z) :
  0 ≤ d < 10 → JS.digitValue (JS.digitChar d) = Some d.
Proof.
  intros Hd.
  assert (d = 0 ∨ d = 1 ∨ d = 2 ∨ d = 3 ∨ d = 4 ∨ d = 5 ∨ d = 6 ∨ d = 7
          ∨ d = 8 ∨ d = 9) as H by lia.
  repeat (destruct H as [->|H]; [reflexivity|]). by subst.
Qed.

(** Reading [width] digits written by [ToZeroPaddedDecimalString] gives the
    number back. *)
Lemma readDigits_padded (width : nat) (n acc : Z) (rest : string) :
  0 ≤ n →
  JS.readDigits width acc (JS.ToZeroPaddedDecimalString n width rest)
  = Some (acc * 10 ^ Z.of_nat width + n mod 10 ^ Z.of_nat width, rest).
Proof.
  intros Hn. revert acc. induction width as [|w IH]; intros acc.
  - cbn. rewrite Z.mod_1_r. do 2 f_equal. lia.
  - cbn [JS.ToZeroPaddedDecimalString JS.readDigits].
    rewrite digitValue_digitChar by (apply Z.mod_pos_bound; lia).
    rewrite IH. do 2 f_equal.
    rewrite Nat2Z.inj_succ, Z.pow_succ_r by lia.
    rewrite (Z.mul_comm 10 (10 ^ Z.of_nat w)).
    rewrite (Z.rem_mul_r n (10 ^ Z.of_nat w) 10) by lia. lia.
Qed.

Lemma readDigits_field (width : nat) (n : Z) (rest : string) :
  0 ≤ n < 10 ^ Z.of_nat width →
  JS.readDigits width 0 (JS.ToZeroPaddedDecimalString n width rest)
  = Some (n, rest).
Proof.
  intros Hn. rewrite readDigits_padded by lia.
  by rewrite Z.mod_small.
Qed.

(** A string that starts with a digit carries a four-digit year. *)
Lemma readYear_digit (d : Z) (s : string) :
  0 ≤ d < 10 →
  JS.readYear (String (JS.digitChar d) s)
  = JS.readDigits 4 0 (String (JS.digitChar d) s).
Proof.
  intros Hd.
  assert (d = 0 ∨ d = 1 ∨ d = 2 ∨ d = 3 ∨ d = 4 ∨ d = 5 ∨ d = 6 ∨ d = 7
          ∨ d = 8 ∨ d = 9) as H by lia.
  repeat (destruct H as [->|H]; [reflexivity|]). by subst.
Qed.

Lemma readYear_yearString (y : Z) (rest : string) :
  -999999 ≤ y ≤ 999999 →
  JS.readYear (JS.yearString y rest) = Some (y, rest).
Proof.
  intros Hy. unfold JS.yearString.
  destruct (Z.leb_spec 0 y) as [Hpos|Hneg]; cbn [andb].
  - destruct (Z.leb_spec y 9999) as [Hsmall|Hbig].
    + cbn [JS.ToZeroPaddedDecimalString].
      rewrite readYear_digit by (apply Z.mod_pos_bound; lia).
      apply (readDigits_field 4). cbn. lia.
    + cbn [JS.readYear]. rewrite Z.abs_eq by lia.
      apply readDigits_field. cbn. lia.
  - cbn [JS.readYear mbind option_bind].
    rewrite readDigits_field by (cbn; lia). cbn [mbind option_bind].
    destruct (Z.eqb_spec (Z.abs y) 0); [lia|]. do 2 f_equal. lia.
Qed.

Lemma YearFromTime_range (t : Z) :
  - JS.maxTimeValue ≤ t ≤ JS.maxTimeValue →
  -271821 ≤ JS.YearFromTime t ≤ 275760.
Proof.
  intros Ht. pose proof (YearFromTime_spec t) as Hy.
  assert (Hd : -100000000 ≤ JS.Day t ≤ 100000000).
  { unfold JS.Day, JS.msPerDay, JS.maxTimeValue in *.
    Z.div_mod_to_equations. lia. }
  split.
  - destruct (Z.le_gt_cases (-271821) (JS.YearFromTime t)) as [|Hlt]; [done|].
    pose proof (DayFromYear_mono (JS.YearFromTime t + 1) (-271821) ltac:(lia))
      as Hmono.
    change (JS.DayFromYear (-271821)) with (-100000109) in Hmono. lia.
  - destruct (Z.le_gt_cases (JS.YearFromTime t) 275760) as [|Hgt]; [done|].
    pose proof (DayFromYear_mono 275761 (JS.YearFromTime t) ltac:(lia))
      as Hmono.
    change (JS.DayFromYear 275761) with 100000110 in Hmono. lia.
Qed.

Lemma MakeDay_of_time (t : Z) :
  JS.MakeDay (JS.YearFromTime t) (JS.MonthFromTime t + 1 - 1) (JS.DateFromTime t)
  = JS.Day t.
Proof.
  pose proof (month_date_spec t) as (Hm & _ & Hd). cbv zeta in Hd.
  unfold JS.MakeDay. replace (JS.MonthFromTime t + 1 - 1) with (JS.MonthFromTime t) by lia.
  rewrite Z.div_small, Z.mod_small, Z.add_0_r by lia.
  unfold JS.DayWithinYear in Hd. lia.
Qed.

Lemma DaysInMonth_le_31 (y m : Z) : 0 ≤ m ≤ 11 → JS.DaysInMonth y m ≤ 31.
Proof.
  intros Hm. unfold JS.DaysInMonth.
  assert (JS.leapOfYear y = 0 ∨ JS.leapOfYear y = 1) as Hleap
    by (destruct (leapOfYear_cases y) as [[? _]|[? _]]; auto).
  revert Hleap. generalize (JS.leapOfYear y). intros leap Hleap.
  assert (m = 0 ∨ m = 1 ∨ m = 2 ∨ m = 3 ∨ m = 4 ∨ m = 5 ∨ m = 6 ∨ m = 7
          ∨ m = 8 ∨ m = 9 ∨ m = 10 ∨ m = 11) as H by lia.
  repeat (destruct H as [->|H]; [table_lookup; lia|]). subst.
  table_lookup. lia.
Qed.

(** [Date.parse] reads back the instant that [toISOString] wrote. *)
Lemma parse_toISOString (t : Z) :
  - JS.maxTimeValue ≤ t ≤ JS.maxTimeValue →
  ∃ s, JS.toISOString (Some t) = Some s ∧ JS.parse s = Some t.
Proof.
  intros Ht. eexists. split; [reflexivity|].
  pose proof (YearFromTime_range t Ht) as Hy.
  pose proof (month_date_spec t) as (Hm & Hd & _).
  pose proof (DaysInMonth_le_31 (JS.YearFromTime t) _ Hm) as Hd31.
  assert (Hh : 0 ≤ JS.HourFromTime t < 24) by (apply Z.mod_pos_bound; lia).
  assert (Hmi : 0 ≤ JS.MinFromTime t < 60) by (apply Z.mod_pos_bound; lia).
  assert (Hs : 0 ≤ JS.SecFromTime t < 60) by (apply Z.mod_pos_bound; lia).
  assert (Hms : 0 ≤ JS.msFromTime t < 1000) by (apply Z.mod_pos_bound; unfold JS.msPerSecond; lia).
  unfold JS.parse.
  rewrite readYear_yearString by lia.
  cbn [mbind option_bind JS.expect Ascii.eqb Bool.eqb].
  rewrite (readDigits_field 2) by (cbn; lia).
  cbn [mbind option_bind JS.expect Ascii.eqb Bool.eqb].
  rewrite (readDigits_field 2) by (cbn; lia).
  cbn [mbind option_bind JS.expect Ascii.eqb Bool.eqb].
  rewrite (readDigits_field 2) by (cbn; lia).
  cbn [mbind option_bind JS.expect Ascii.eqb Bool.eqb].
  rewrite (readDigits_field 2) by (cbn; lia).
  cbn [mbind option_bind JS.expect Ascii.eqb Bool.eqb].
  rewrite (readDigits_field 2) by (cbn; lia).
  cbn [mbind option_bind JS.expect Ascii.eqb Bool.eqb].
  rewrite (readDigits_field 3) by (cbn; lia).
  cbn [mbind option_bind JS.expect Ascii.eqb Bool.eqb String.eqb negb].
  rewrite (proj2 (Z.leb_le 1 (JS.MonthFromTime t + 1))) by lia.
  rewrite (proj2 (Z.leb_le (JS.MonthFromTime t + 1) 12)) by lia.
  rewrite (proj2 (Z.leb_le 1 (JS.DateFromTime t))) by lia.
  replace (JS.MonthFromTime t + 1 - 1) with (JS.MonthFromTime t) at 1 by lia.
  rewrite (proj2 (Z.leb_le (JS.DateFromTime t) _)) by lia.
  rewrite (proj2 (Z.leb_le (JS.HourFromTime t) 23)) by lia.
  rewrite (proj2 (Z.leb_le (JS.MinFromTime t) 59)) by lia.
  rewrite (proj2 (Z.leb_le (JS.SecFromTime t) 59)) by lia.
  cbn [andb orb negb].
  rewrite MakeDay_of_time. unfold JS.MakeTime.
  rewrite ToIntegerOrInfinity_ofZ. unfold JS.MakeDate.
  rewrite time_decomposition. unfold JS.TimeClip.
  destruct (Z.ltb_spec JS.maxTimeValue (Z.abs t)); [lia|done].
Qed.

(** C7.  For a token whose two dates are valid time values [c] and [e],
    [serializeToken] returns, without any effect on the world, a response
    that carries [id], [token], [userId] and [scopes] unchanged and whose
    [createdAt] and [expiresAt] are the [toISOString] texts of the two dates;
    [Date.parse] reads [c] and [e] back from them.  (The parser of the model
    accepts only the complete form [YYYY-MM-DDTHH:mm:ss.sssZ] and its
    expanded-year variant, so the texts have UTC designator and millisecond
    precision.) *)
Theorem serializeToken_roundtrip (w : World) (token : TokenType.Token)
    (c e : Z) :
  TokenType.createdAt token = Some c →
  TokenType.expiresAt token = Some e →
  validTime c → validTime e →
  ∃ response,
    TokenService.serializeToken token w = (Returned response, w)
    ∧ TokenType.r_id response = TokenType.id token
    ∧ TokenType.r_token response = TokenType.token token
    ∧ TokenType.r_userId response = TokenType.userId token
    ∧ TokenType.r_scopes response = TokenType.scopes token
    ∧ JS.toISOString (Some c) = Some (TokenType.r_createdAt response)
    ∧ JS.toISOString (Some e) = Some (TokenType.r_expiresAt response)
    ∧ JS.parse (TokenType.r_createdAt response) = Some c
    ∧ JS.parse (TokenType.r_expiresAt response) = Some e.
Proof.
  intros Hc He Hvc Hve.
  destruct (parse_toISOString c Hvc) as (sc & Hsc & Hpc).
  destruct (parse_toISOString e Hve) as (se & Hse & Hpe).
  unfold TokenService.serializeToken, toISOString.
  rewrite Hc, He, Hsc, Hse. eexists. split; [reflexivity|]. by cbn.
Qed.

Lemma serializeToken_roundtrip_witness :
  ∃ response,
    TokenService.serializeToken Fixtures.mockToken Fixtures.w0
    = (Returned response, Fixtures.w0)
    ∧ TokenType.r_createdAt response = "2025-01-01T10:00:00.000Z"
    ∧ TokenType.r_expiresAt response = "2025-01-01T11:00:00.000Z"
    ∧ JS.parse (TokenType.r_createdAt response) = Some 1735725600000
    ∧ JS.parse (TokenType.r_expiresAt response) = Some 1735729200000.
Proof.
  destruct (serializeToken_roundtrip Fixtures.w0 Fixtures.mockToken
              1735725600000 1735729200000 eq_refl eq_refl)
    as (response & Hrun & _ & _ & _ & _ & Hc & He & Hpc & Hpe).
  - unfold validTime, JS.maxTimeValue. lia.
  - unfold validTime, JS.maxTimeValue. lia.
  - exists response. split; [exact Hrun|].
    split; [apply (inj Some); rewrite <- Hc; by vm_compute|].
    split; [apply (inj Some); rewrite <- He; by vm_compute|].
    by split.
Defined.

(** ** C8: the token generator *)

Lemma hexChar_isHexDigit (n : Z) :
  0 ≤ n < 16 → JS.isHexDigit (JS.hexChar n) = true.
Proof.
  intros Hn.
  assert (n = 0 ∨ n = 1 ∨ n = 2 ∨ n = 3 ∨ n = 4 ∨ n = 5 ∨ n = 6 ∨ n = 7
          ∨ n = 8 ∨ n = 9 ∨ n = 10 ∨ n = 11 ∨ n = 12 ∨ n = 13 ∨ n = 14
          ∨ n = 15) as H by lia.
  repeat (destruct H as [->|H]; [reflexivity|]). by subst.
Qed.

Lemma hexRun_hexChar (k : nat) (n : Z) (rest : string) :
  0 ≤ n < 16 →
  JS.hexRun (S k) (String (JS.hexChar n) rest) = JS.hexRun k rest.
Proof. intros Hn. cbn [JS.hexRun]. by rewrite hexChar_isHexDigit. Qed.

Lemma hexRun_kHexBytes (k : nat) (v : Z) (rest : string) :
  0 ≤ v < 256 →
  JS.hexRun (S (S k)) (JS.kHexBytes v rest) = JS.hexRun k rest.
Proof.
  intros Hv. unfold JS.kHexBytes.
  rewrite !hexRun_hexChar; [done|..]; Z.div_mod_to_equations; lia.
Qed.


Lemma hexRun_0 (s : string) : JS.hexRun 0 s = Some s.
Proof. reflexivity. Qed.

(** The text of a buffer of bytes stamped with the version and the variant
    is a canonical version 4 UUID. *)
Lemma serializeUUID_canonical (buf : list Z) :
  (∀ i, 0 ≤ JS.at_ buf i < 256) →
  JS.at_ buf 6 / 16 = 4 →
  8 ≤ JS.at_ buf 8 / 16 ≤ 11 →
  JS.isUUIDv4 (JS.serializeUUID buf) = true.
Proof.
  intros Hrange H6 H8. unfold JS.isUUIDv4, JS.serializeUUID.
  assert (Hmod : ∀ i, 0 ≤ JS.at_ buf i mod 16 < 16)
    by (intros i; apply Z.mod_pos_bound; lia).
  repeat (rewrite ?hexRun_0, ?hexRun_kHexBytes by apply Hrange;
          cbn [mbind option_bind JS.expect Ascii.eqb Bool.eqb]).
  unfold JS.kHexBytes at 1. rewrite H6.
  change (JS.hexChar 4) with "4"%char.
  cbn [mbind option_bind JS.expect Ascii.eqb Bool.eqb].
  rewrite hexRun_hexChar by apply Hmod.
  repeat (rewrite ?hexRun_0, ?hexRun_kHexBytes by apply Hrange;
          cbn [mbind option_bind JS.expect Ascii.eqb Bool.eqb]).
  unfold JS.kHexBytes at 1.
  assert (Hv : JS.hexChar (JS.at_ buf 8 / 16) ∈ ["8"; "9"; "a"; "b"]%char).
  { assert (JS.at_ buf 8 / 16 = 8 ∨ JS.at_ buf 8 / 16 = 9
            ∨ JS.at_ buf 8 / 16 = 10 ∨ JS.at_ buf 8 / 16 = 11)
      as [-> | [-> | [-> | ->]]] by lia; set_solver. }
  rewrite (bool_decide_eq_true_2 _ Hv).
  cbn [mbind option_bind].
  rewrite hexRun_hexChar by apply Hmod.
  repeat (rewrite ?hexRun_0, ?hexRun_kHexBytes by apply Hrange;
          cbn [mbind option_bind JS.expect Ascii.eqb Bool.eqb]).
  reflexivity.
Qed.

Lemma byteValue_range (b : byte) : 0 ≤ JS.byteValue b < 256.
Proof.
  unfold JS.byteValue. pose proof (Byte.to_N_bounded b). lia.
Qed.

Lemma version_stamp (b : byte) :
  let v := Z.lor (Z.land (JS.byteValue b) 0x0f) 0x40 in
  0 ≤ v < 256 ∧ v / 16 = 4 ∧ v mod 16 = JS.byteValue b mod 16.
Proof. destruct b; vm_compute; repeat split; congruence. Qed.

Lemma variant_stamp (b : byte) :
  let v := Z.lor (Z.land (JS.byteValue b) 0x3f) 0x80 in
  0 ≤ v < 256 ∧ 8 ≤ v / 16 ≤ 11 ∧ v mod 64 = JS.byteValue b mod 64.
Proof. destruct b; vm_compute; repeat split; congruence. Qed.

(** The buffer made from sixteen random bytes, spelled out. *)
Lemma uuidData_16 (random : list byte) :
  length random = 16%nat →
  ∃ b0 b1 b2 b3 b4 b5 b6 b7 b8 b9 b10 b11 b12 b13 b14 b15,
    random = [b0; b1; b2; b3; b4; b5; b6; b7; b8; b9; b10; b11; b12; b13;
              b14; b15]
    ∧ JS.uuidData random
      = [JS.byteValue b0; JS.byteValue b1; JS.byteValue b2; JS.byteValue b3;
         JS.byteValue b4; JS.byteValue b5;
         Z.lor (Z.land (JS.byteValue b6) 0x0f) 0x40; JS.byteValue b7;
         Z.lor (Z.land (JS.byteValue b8) 0x3f) 0x80; JS.byteValue b9;
         JS.byteValue b10; JS.byteValue b11; JS.byteValue b12;
         JS.byteValue b13; JS.byteValue b14; JS.byteValue b15].
Proof.
  intros Hlen.
  do 16 (destruct random as [|? random]; [done|]).
  destruct random; [|done]. by repeat eexists.
Qed.

Lemma uuidData_range (random : list byte) (i : nat) :
  length random = 16%nat → 0 ≤ JS.at_ (JS.uuidData random) i < 256.
Proof.
  intros (b0 & b1 & b2 & b3 & b4 & b5 & b6 & b7 & b8 & b9 & b10 & b11 & b12
          & b13 & b14 & b15 & -> & ->)%uuidData_16.
  pose proof (version_stamp b6) as (? & _). pose proof (variant_stamp b8) as (? & _).
  do 16 (destruct i as [|i]; [cbn [JS.at_ lookup list_lookup default];
                              first [apply byteValue_range | done]|]).
  cbn [JS.at_ lookup list_lookup default]. destruct i; cbn; lia.
Qed.

Lemma uuidOfRandom_canonical (random : list byte) :
  length random = 16%nat → JS.isUUIDv4 (JS.uuidOfRandom random) = true.
Proof.
  intros Hlen. unfold JS.uuidOfRandom. apply serializeUUID_canonical.
  - intros i. by apply uuidData_range.
  - apply uuidData_16 in Hlen
      as (b0 & b1 & b2 & b3 & b4 & b5 & b6 & b7 & b8 & b9 & b10 & b11 & b12
          & b13 & b14 & b15 & -> & ->).
    cbn [JS.at_ lookup list_lookup default]. apply (version_stamp b6).
  - apply uuidData_16 in Hlen
      as (b0 & b1 & b2 & b3 & b4 & b5 & b6 & b7 & b8 & b9 & b10 & b11 & b12
          & b13 & b14 & b15 & -> & ->).
    cbn [JS.at_ lookup list_lookup default]. apply (variant_stamp b8).
Qed.

Lemma unhexChar_hexChar (n : Z) :
  0 ≤ n < 16 →
  JS.unhexChar (JS.hexChar n) = n ∧ Ascii.eqb (JS.hexChar n) "-" = false.
Proof.
  intros Hn.
  assert (n = 0 ∨ n = 1 ∨ n = 2 ∨ n = 3 ∨ n = 4 ∨ n = 5 ∨ n = 6 ∨ n = 7
          ∨ n = 8 ∨ n = 9 ∨ n = 10 ∨ n = 11 ∨ n = 12 ∨ n = 13 ∨ n = 14
          ∨ n = 15) as H by lia.
  repeat (destruct H as [->|H]; [by split|]). by subst.
Qed.

Lemma unhexBytes_kHexBytes (v : Z) (rest : string) :
  0 ≤ v < 256 →
  JS.unhexBytes (JS.kHexBytes v rest) = v :: JS.unhexBytes rest.
Proof.
  intros Hv. unfold JS.kHexBytes.
  assert (Hhi : 0 ≤ v / 16 < 16) by (Z.div_mod_to_equations; lia).
  assert (Hlo : 0 ≤ v mod 16 < 16) by (apply Z.mod_pos_bound; lia).
  destruct (unhexChar_hexChar _ Hhi) as [Hhi1 Hhi2].
  destruct (unhexChar_hexChar _ Hlo) as [Hlo1 _].
  cbn [JS.unhexBytes]. rewrite Hhi2, Hhi1, Hlo1. f_equal.
  symmetry. apply Z.div_mod. lia.
Qed.

Lemma unhexBytes_serializeUUID (buf : list Z) :
  length buf = 16%nat →
  (∀ i, 0 ≤ JS.at_ buf i < 256) →
  JS.unhexBytes (JS.serializeUUID buf) = buf.
Proof.
  intros Hlen Hrange. unfold JS.serializeUUID.
  repeat (rewrite ?unhexBytes_kHexBytes by apply Hrange;
          cbn [JS.unhexBytes Ascii.eqb Bool.eqb]).
  do 16 (destruct buf as [|? buf]; [done|]).
  by destruct buf.
Qed.

Lemma uuidData_length (random : list byte) :
  length (JS.uuidData random) = length random.
Proof. unfold JS.uuidData. by rewrite !length_insert, length_fmap. Qed.

(** The text of a UUID determines the stamped buffer it was made from. *)
Lemma uuidOfRandom_inj (r1 r2 : list byte) :
  length r1 = 16%nat → length r2 = 16%nat →
  JS.uuidOfRandom r1 = JS.uuidOfRandom r2 ↔ JS.uuidData r1 = JS.uuidData r2.
Proof.
  intros H1 H2. unfold JS.uuidOfRandom. split; [|by intros ->].
  intros H%(f_equal JS.unhexBytes).
  rewrite !unhexBytes_serializeUUID in H;
    rewrite ?uuidData_length; auto using uuidData_range.
Qed.

Lemma byteValue_inj (b b' : byte) : JS.byteValue b = JS.byteValue b' → b = b'.
Proof.
  unfold JS.byteValue. intros H%Z2N.inj_iff%(f_equal Byte.of_N); [|lia..].
  rewrite !N2Z.id, !Byte.of_to_N in H. by injection H.
Qed.

Lemma stamp_values (b : byte) :
  Z.lor (Z.land (JS.byteValue b) 0x0f) 0x40 = 64 + JS.byteValue b mod 16
  ∧ Z.lor (Z.land (JS.byteValue b) 0x3f) 0x80 = 128 + JS.byteValue b mod 64.
Proof. destruct b; vm_compute; split; congruence. Qed.

(** Two buffers of sixteen random bytes give the same stamped buffer exactly
    when they agree on the 122 bits that the stamps leave alone: every bit of
    the fourteen bytes other than bytes 6 and 8, the low four bits of byte 6
    and the low six bits of byte 8. *)
Lemma uuidData_eq (r1 r2 : list byte) :
  length r1 = 16%nat → length r2 = 16%nat →
  JS.uuidData r1 = JS.uuidData r2
  ↔ (∀ i, i ≠ 6%nat → i ≠ 8%nat → r1 !! i = r2 !! i)
    ∧ JS.at_ (JS.byteValue <$> r1) 6 mod 16
      = JS.at_ (JS.byteValue <$> r2) 6 mod 16
    ∧ JS.at_ (JS.byteValue <$> r1) 8 mod 64
      = JS.at_ (JS.byteValue <$> r2) 8 mod 64.
Proof.
  intros (a0 & a1 & a2 & a3 & a4 & a5 & a6 & a7 & a8 & a9 & a10 & a11 & a12
          & a13 & a14 & a15 & -> & ->)%uuidData_16.
  intros (b0 & b1 & b2 & b3 & b4 & b5 & b6 & b7 & b8 & b9 & b10 & b11 & b12
          & b13 & b14 & b15 & -> & ->)%uuidData_16.
  cbn [fmap list_fmap JS.at_ lookup list_lookup default].
  destruct (stamp_values a6) as [-> _], (stamp_values b6) as [-> _].
  destruct (stamp_values a8) as [_ ->], (stamp_values b8) as [_ ->].
  split.
  - intros H. simplify_eq.
    repeat match goal with
           | E : JS.byteValue _ = JS.byteValue _ |- _ =>
               apply byteValue_inj in E; subst
           end.
    unfold Datatypes.id. split; [|lia]. intros i Hi6 Hi8.
    do 16 (destruct i as [|i]; [done|]). done.
  - intros (H & H6 & H8).
    assert (Hat : ∀ i x y, i ≠ 6%nat → i ≠ 8%nat →
              [a0; a1; a2; a3; a4; a5; a6; a7; a8; a9; a10; a11; a12; a13;
               a14; a15] !! i = Some x →
              [b0; b1; b2; b3; b4; b5; b6; b7; b8; b9; b10; b11; b12; b13;
               b14; b15] !! i = Some y → x = y).
    { intros i x y Hi6 Hi8 Hx Hy. rewrite (H i Hi6 Hi8), Hy in Hx. congruence. }
    unfold Datatypes.id in H6, H8. rewrite H6, H8.
    rewrite (Hat 0%nat a0 b0), (Hat 1%nat a1 b1), (Hat 2%nat a2 b2),
      (Hat 3%nat a3 b3), (Hat 4%nat a4 b4), (Hat 5%nat a5 b5),
      (Hat 7%nat a7 b7), (Hat 9%nat a9 b9), (Hat 10%nat a10 b10),
      (Hat 11%nat a11 b11), (Hat 12%nat a12 b12), (Hat 13%nat a13 b13),
      (Hat 14%nat a14 b14), (Hat 15%nat a15 b15) by done.
    reflexivity.
Qed.

(** C8.  Every call of [generateTokenString] returns ["token_"] followed by a
    text of 36 characters that is a canonical version 4 UUID (lower-case
    hexadecimal in the 8-4-4-4-12 grouping, version digit 4, variant digit 8,
    9, a or b), made from the next sixteen bytes of the random source.  The
    call that follows returns the same value exactly when the sixteen bytes
    it draws agree with the sixteen drawn before on all of the 122 bits that
    the version and variant stamps leave alone: two calls collide only if the
    random source repeats 122 bits. *)
Theorem generateTokenString_spec (w : World) :
  let r1 := nextBytes 16 w in
  let w1 := snd (TokenService.generateTokenString w) in
  let r2 := nextBytes 16 w1 in
  (∃ uuid,
     fst (TokenService.generateTokenString w) = Returned ("token_" +:+ uuid)
     ∧ uuid = JS.uuidOfRandom r1
     ∧ String.length uuid = 36%nat
     ∧ JS.isUUIDv4 uuid = true)
  ∧ drawn w1 = (drawn w + 16)%nat
  ∧ (fst (TokenService.generateTokenString w1)
     = fst (TokenService.generateTokenString w)
     ↔ (∀ i, i ≠ 6%nat → i ≠ 8%nat → r2 !! i = r1 !! i)
       ∧ JS.at_ (JS.byteValue <$> r2) 6 mod 16
         = JS.at_ (JS.byteValue <$> r1) 6 mod 16
       ∧ JS.at_ (JS.byteValue <$> r2) 8 mod 64
         = JS.at_ (JS.byteValue <$> r1) 8 mod 64).
Proof.
  intros r1 w1 r2.
  assert (Hl1 : length r1 = 16%nat) by (unfold r1, nextBytes; by rewrite length_fmap).
  assert (Hl2 : length r2 = 16%nat) by (unfold r2, nextBytes; by rewrite length_fmap).
  rewrite (generateTokenString_run w1), (generateTokenString_run w).
  cbn [fst snd]. fold r1 r2.
  split; [|split; [unfold w1; by rewrite generateTokenString_run|]].
  - exists (JS.uuidOfRandom r1). split; [done|]. split; [done|].
    split; [|by apply uuidOfRandom_canonical].
    apply uuidData_16 in Hl1
      as (b0 & b1 & b2 & b3 & b4 & b5 & b6 & b7 & b8 & b9 & b10 & b11 & b12
          & b13 & b14 & b15 & _ & Hd).
    unfold JS.uuidOfRandom. rewrite Hd. reflexivity.
  - rewrite <- uuidData_eq, <- uuidOfRandom_inj by done. split.
    + intros H%Returned_inj. by apply String.app_inj in H.
    + by intros ->.
Qed.

(** ** C10: a body that is not JSON *)

Lemma createTokenController_not_json (w : World) (request : Next.NextRequest) :
  Next.json request = None →
  fst (TokenController.createTokenController request w)
  = Returned
      (if JS.truthy (API_KEY w)
          && negb (JS.strictEquals (Next.headers_get request "X-API-Key")
                                   (API_KEY w))
       then TokenController.unauthorized
       else TokenController.internalServerError).
Proof.
  intros Hjson.
  unfold TokenController.createTokenController, try_catch.
  unfold mbind at 1. unfold Eff_bind at 1. rewrite validateApiKey_run.
  unfold Next.request_json. rewrite Hjson.
  destruct (JS.truthy (API_KEY w)); cbn [andb].
  - by destruct (JS.strictEquals _ _).
  - reflexivity.
Qed.

Lemma createToken_throws (w : World) (userId : string) (scopes : list string)
    (m : JS.number) (e : exn) :
  fst (TokenService.createToken userId scopes m w) = Thrown e →
  ∀ issues, e ≠ ZodError issues.
Proof.
  unfold TokenService.createToken, TokenService.calculateExpiryDate.
  unfold mbind at 1. unfold Eff_bind at 1. rewrite generateTokenString_run.
  unfold mbind, Eff_bind, new_Date, getMinutes, setMinutes, mret, Eff_ret,
    Prisma.token_create.
  cbn [TZ set_reads set_drawn clock reads online].
  repeat case_match; simplify_eq/=; try done; intros [= <-] ? ?; discriminate.
Qed.

Lemma serializeToken_throws (w : World) (token : TokenType.Token) (e : exn) :
  fst (TokenService.serializeToken token w) = Thrown e →
  ∀ issues, e ≠ ZodError issues.
Proof.
  unfold TokenService.serializeToken, toISOString, mbind, Eff_bind, mret,
    Eff_ret, throw.
  repeat case_match; simplify_eq/=; try done; intros [= <-] ? ?; discriminate.
Qed.

(** The create controller answers 400 only to a request that passed the gate
    and whose body, once parsed, the schema rejects; the response then
    carries the issues. *)
Lemma createTokenController_400 (w : World) (request : Next.NextRequest)
    (response : Next.NextResponse) :
  fst (TokenController.createTokenController request w) = Returned response →
  Next.status response = 400 →
  ∃ data issues,
    fst (Auth.validateApiKey request w) = Returned true
    ∧ Next.json request = Some data
    ∧ Zod.safeParse TokenValidation.createTokenSchema data = inl issues
    ∧ response = TokenController.validationFailed issues.
Proof.
  unfold TokenController.createTokenController, try_catch.
  unfold mbind at 1. unfold Eff_bind at 1.
  destruct (Auth.validateApiKey request w) as [[[]|e] w1] eqn:Hauth;
    cbn [negb fst].
  - unfold Next.request_json.
    destruct (Next.json request) as [data|] eqn:Hjson.
    + unfold mbind at 1. unfold Eff_bind at 1. unfold mret at 1, Eff_ret at 1.
      unfold mbind at 1. unfold Eff_bind at 1. unfold parse.
      destruct (Zod.safeParse _ data) as [issues|input] eqn:Hparse.
      * unfold throw, mret, Eff_ret. cbn [fst]. intros [= <-] _. eauto 10.
      * unfold mret at 1, Eff_ret at 1.
        unfold mbind at 1. unfold Eff_bind at 1.
        destruct (TokenService.createToken _ _ _ w1) as [[tok|e] w2] eqn:Hcreate.
        -- unfold mbind at 1. unfold Eff_bind at 1.
           destruct (TokenService.serializeToken tok w2) as [[r|e] w3] eqn:Hser.
           ++ unfold mret, Eff_ret. cbn [fst]. by intros [= <-].
           ++ assert (Hne : ∀ issues, e ≠ ZodError issues).
              { eapply serializeToken_throws. by rewrite Hser. }
              destruct e; try (by intros [= <-]). by destruct (Hne issues).
        -- assert (Hne : ∀ issues, e ≠ ZodError issues).
           { eapply createToken_throws. by rewrite Hcreate. }
           destruct e; try (by intros [= <-]). by destruct (Hne issues).
    + unfold throw, mbind, Eff_bind. by intros [= <-].
  - unfold mret, Eff_ret. by intros [= <-].
  - rewrite validateApiKey_run in Hauth. by destruct (JS.truthy _).
Qed.

(** C10, as amended.  For a request whose body is not JSON,
    [createTokenController] answers 500 with the body
    [{ error: "Internal server error" }], and not 400, when the request passes
    the API key gate, and 401 when the gate rejects it. *)
Theorem createTokenController_unparseable_body (w : World)
    (request : Next.NextRequest) :
  Next.json request = None →
  match fst (Auth.validateApiKey request w) with
  | Returned true =>
      fst (TokenController.createTokenController request w)
      = Returned TokenController.internalServerError
  | _ =>
      fst (TokenController.createTokenController request w)
      = Returned TokenController.unauthorized
  end
  ∧ Next.status TokenController.internalServerError = 500
  ∧ Next.body TokenController.internalServerError
    = Next.ErrorBody {| TokenType.error := "Internal server error";
                        TokenType.details := None |}
  ∧ Next.status TokenController.unauthorized = 401.
Proof.
  intros Hjson. split; [|done].
  rewrite createTokenController_not_json by done.
  rewrite validateApiKey_run.
  destruct (JS.truthy (API_KEY w)); cbn [andb fst]; [|done].
  by destruct (JS.strictEquals _ _).
Qed.

Lemma createTokenController_unparseable_body_witness :
  Next.json (Fixtures.request (Some "secret") None) = None
  ∧ fst (Auth.validateApiKey (Fixtures.request (Some "secret") None)
           Fixtures.w0) = Returned true
  ∧ fst (TokenController.createTokenController
           (Fixtures.request (Some "secret") None) Fixtures.w0)
    = Returned TokenController.internalServerError.
Proof.
  split; [reflexivity|]. split; [reflexivity|].
  apply (createTokenController_unparseable_body Fixtures.w0
           (Fixtures.request (Some "secret") None) eq_refl).
Defined.

(** C10, as stated, fails: the gate is consulted before the body is read, so
    a request without the key is answered 401 even when its body is not
    JSON. *)
Lemma createTokenController_unparseable_body_unauthorized :
  ¬ (∀ (w : World) (request : Next.NextRequest),
       Next.json request = None →
       ∃ response,
         fst (TokenController.createTokenController request w)
         = Returned response
         ∧ Next.status response = 500).
Proof.
  intros H.
  destruct (H Fixtures.w0 (Fixtures.request None None) eq_refl)
    as (response & Hrun & Hstatus).
  vm_compute in Hrun. injection Hrun as <-. discriminate.
Qed.

(** * Further properties of the service *)

(** ** What [createToken] does, in any time zone *)

Lemma calculateExpiryDate_run (w : World) (m : JS.number) :
  TokenService.calculateExpiryDate m w
  = (Returned (expiryIn w m), set_reads (S (reads w)) w).
Proof. reflexivity. Qed.

Lemma createToken_unfold (w : World) (userId : string) (scopes : list string)
    (m : JS.number) :
  TokenService.createToken userId scopes m w
  = Prisma.token_create ("token_" +:+ JS.uuidOfRandom (nextBytes 16 w))
      userId scopes (expiryIn w m)
      (set_reads (S (reads w)) (set_drawn (drawn w + 16)%nat w)).
Proof.
  unfold TokenService.createToken.
  unfold mbind at 1. unfold Eff_bind at 1. rewrite generateTokenString_run.
  unfold mbind at 1. unfold Eff_bind at 1. rewrite calculateExpiryDate_run.
  unfold expiryIn. cbn [clock reads set_drawn TZ].
  unfold mbind, Eff_bind, mret, Eff_ret.
  by destruct (Prisma.token_create _ _ _ _ _) as [[?|?] ?].
Qed.

(** The outcomes of an insert. *)
Lemma token_create_cases (w : World) (tk u : string) (s : list string)
    (d : JS.Date) :
  match Prisma.token_create tk u s d w with
  | (Returned tok, w') =>
      ∃ e, d = Some e
           ∧ online w = true
           ∧ (cuid w (issued w) ∉ id <$> tokens w)
           ∧ (tk ∉ token <$> tokens w)
           ∧ tok = Prisma.toToken
                     {| id := cuid w (issued w); token := tk; userId := u;
                        scopes := s; createdAt := clock w (reads w);
                        expiresAt := e |}
           ∧ w' = set_issued (S (issued w))
                    (set_reads (S (reads w))
                       (set_tokens
                          (tokens w ++
                             [{| id := cuid w (issued w); token := tk;
                                 userId := u; scopes := s;
                                 createdAt := clock w (reads w);
                                 expiresAt := e |}]) w))
  | (Thrown x, w') =>
      w' = w
      ∧ ((x = PrismaClientValidationError "Invalid Date" ∧ d = None)
         ∨ (x = PrismaClientInitializationError ∧ online w = false)
         ∨ (x = PrismaClientKnownRequestError "P2002"
            ∧ (cuid w (issued w) ∈ (id <$> tokens w)
               ∨ tk ∈ (token <$> tokens w))))
  end.
Proof.
  unfold Prisma.token_create. destruct d as [e|]; [|by auto].
  destruct (online w) eqn:Honline; cbn [negb]; [|by auto].
  cbn [id].
  destruct (bool_decide (cuid w (issued w) ∈ id <$> tokens w)) eqn:Hid;
    [apply bool_decide_eq_true in Hid; cbn [orb]; by auto 10|].
  apply bool_decide_eq_false in Hid. cbn [orb].
  destruct (bool_decide (tk ∈ token <$> tokens w)) eqn:Htk;
    [apply bool_decide_eq_true in Htk; by auto 10|].
  apply bool_decide_eq_false in Htk. exists e. by repeat split.
Qed.

Lemma createToken_cases (w : World) (u : string) (s : list string)
    (m : JS.number) :
  let w0 := set_reads (S (reads w)) (set_drawn (drawn w + 16)%nat w) in
  let tk := "token_" +:+ JS.uuidOfRandom (nextBytes 16 w) in
  match TokenService.createToken u s m w with
  | (Returned tok, w') =>
      ∃ e, expiryIn w m = Some e
           ∧ online w = true
           ∧ (cuid w (issued w) ∉ id <$> tokens w)
           ∧ (tk ∉ token <$> tokens w)
           ∧ tok = Prisma.toToken
                     {| id := cuid w (issued w); token := tk; userId := u;
                        scopes := s; createdAt := clock w (S (reads w));
                        expiresAt := e |}
           ∧ w' = set_issued (S (issued w))
                    (set_reads (S (S (reads w)))
                       (set_tokens
                          (tokens w ++
                             [{| id := cuid w (issued w); token := tk;
                                 userId := u; scopes := s;
                                 createdAt := clock w (S (reads w));
                                 expiresAt := e |}]) w0))
  | (Thrown x, w') =>
      w' = w0
      ∧ ((x = PrismaClientValidationError "Invalid Date"
          ∧ expiryIn w m = None)
         ∨ (x = PrismaClientInitializationError ∧ online w = false)
         ∨ (x = PrismaClientKnownRequestError "P2002"
            ∧ (cuid w (issued w) ∈ (id <$> tokens w)
               ∨ tk ∈ (token <$> tokens w))))
  end.
Proof.
  intros w0 tk. rewrite createToken_unfold. fold tk w0.
  pose proof (token_create_cases w0 tk u s (expiryIn w m)) as H.
  destruct (Prisma.token_create tk u s (expiryIn w m) w0) as [[tok|x] w'].
  - destruct H as (e & He & Hon & Hid & Htk & -> & ->). exists e.
    by repeat split.
  - exact H.
Qed.

Lemma serializeToken_toToken (w : World) (row : Row) :
  TokenService.serializeToken (Prisma.toToken row) w
  = (Returned (serialized row), w).
Proof. reflexivity. Qed.

Lemma validateApiKey_cases (w : World) (request : Next.NextRequest) :
  ∃ b w1,
    Auth.validateApiKey request w = (Returned b, w1)
    ∧ (b = false → w1 = w)
    ∧ tokens w1 = tokens w ∧ online w1 = online w ∧ TZ w1 = TZ w
    ∧ clock w1 = clock w ∧ reads w1 = reads w ∧ entropy w1 = entropy w
    ∧ drawn w1 = drawn w ∧ cuid w1 = cuid w ∧ issued w1 = issued w
    ∧ API_KEY w1 = API_KEY w.
Proof.
  rewrite validateApiKey_run. destruct (JS.truthy (API_KEY w)).
  - eexists _, _. split; [reflexivity|]. by repeat split.
  - eexists _, _. split; [reflexivity|]. by repeat split.
Qed.

(** The line the create controller logs before it answers 500. *)
Lemma createTokenController_cases (w : World) (request : Next.NextRequest) :
  ∃ b w1,
    Auth.validateApiKey request w = (Returned b, w1)
    ∧ if b then
        match Next.json request with
        | None =>
            TokenController.createTokenController request w
            = (Returned TokenController.internalServerError,
               set_console (console w1 ++ [(Error, "Error creating token:")]) w1)
        | Some data =>
            match Zod.safeParse TokenValidation.createTokenSchema data with
            | inl issues =>
                TokenController.createTokenController request w
                = (Returned (TokenController.validationFailed issues), w1)
            | inr input =>
                match TokenService.createToken
                        (TokenValidation.userId input)
                        (TokenValidation.scopes input)
                        (TokenValidation.expiresInMinutes input) w1 with
                | (Returned tok, w2) =>
                    ∃ row,
                      tok = Prisma.toToken row
                      ∧ TokenController.createTokenController request w
                        = (Returned
                             (Next.NextResponse_json
                                (Next.TokenBody (serialized row)) 201), w2)
                | (Thrown x, w2) =>
                    TokenController.createTokenController request w
                    = (Returned TokenController.internalServerError,
                       set_console
                         (console w2 ++ [(Error, "Error creating token:")]) w2)
                end
            end
        end
      else
        w1 = w
        ∧ TokenController.createTokenController request w
          = (Returned TokenController.unauthorized, w).
Proof.
  destruct (validateApiKey_cases w request) as (b & w1 & Hauth & Hfalse & _).
  exists b, w1. split; [done|].
  remember (TokenController.createTokenController request w) as run eqn:Hrun.
  unfold TokenController.createTokenController, try_catch in Hrun.
  unfold mbind at 1 in Hrun. unfold Eff_bind at 1 in Hrun. rewrite Hauth in Hrun.
  destruct b; cbn [negb] in Hrun.
  - unfold Next.request_json in Hrun.
    destruct (Next.json request) as [data|]; [|exact Hrun].
    unfold mbind at 1 in Hrun. unfold Eff_bind at 1 in Hrun.
    unfold mret at 1, Eff_ret at 1 in Hrun.
    unfold mbind at 1 in Hrun. unfold Eff_bind at 1 in Hrun. unfold parse in Hrun.
    destruct (Zod.safeParse _ data) as [issues|input]; [exact Hrun|].
    unfold mret at 1, Eff_ret at 1 in Hrun.
    unfold mbind at 1 in Hrun. unfold Eff_bind at 1 in Hrun.
    pose proof (createToken_cases w1 (TokenValidation.userId input)
                  (TokenValidation.scopes input)
                  (TokenValidation.expiresInMinutes input)) as Hc.
    destruct (TokenService.createToken _ _ _ w1) as [[tok|x] w2].
    + destruct Hc as (e & _ & _ & _ & _ & -> & _). eexists. split; [done|].
      unfold mbind at 1 in Hrun. unfold Eff_bind at 1 in Hrun.
      rewrite serializeToken_toToken in Hrun. exact Hrun.
    + destruct Hc as (_ & [[-> _]|[[-> _]|[-> _]]]); exact Hrun.
  - split; [by apply Hfalse|]. rewrite Hrun, (Hfalse eq_refl). reflexivity.
Qed.

(** ** The create controller: outcomes, effect on the table, invariants *)

Lemma scopes_strings (js : list JS.json) (l : list string) :
  Forall2 (λ j s, j = JS.JString s ∧ (1 ≤ String.length s)%nat) js l →
  js = JS.JString <$> l ∧ Forall (λ s, s ≠ "") l.
Proof.
  induction 1 as [|j s js l [-> Hs] _ [-> IH]]; [by split|].
  split; [done|]. constructor; [|done]. intros ->. cbn in Hs. lia.
Qed.

(** What the schema's verdict says about the parsed data and the body. *)
Lemma createTokenSchema_parsed (data : JS.json)
    (input : TokenValidation.CreateTokenInput) :
  Zod.safeParse TokenValidation.createTokenSchema data = inr input →
  ∃ o m,
    data = JS.JObject o
    ∧ o !! "userId" = Some (JS.JString (TokenValidation.userId input))
    ∧ o !! "scopes"
      = Some (JS.JArray (JS.JString <$> TokenValidation.scopes input))
    ∧ o !! "expiresInMinutes" = Some (JS.JNumber (JS.ofZ m))
    ∧ TokenValidation.userId input ≠ ""
    ∧ TokenValidation.scopes input ≠ []
    ∧ Forall (λ s, s ≠ "") (TokenValidation.scopes input)
    ∧ TokenValidation.expiresInMinutes input = JS.ofZ m
    ∧ 0 < m ≤ 525600.
Proof.
  intros (o & -> & [Hu Hlu] & [(js & Hjs & Hall) Hlen] & Hx & m & Hm & Hrange)
    %createTokenSchema_accepted.
  destruct (scopes_strings _ _ Hall) as [-> Hne].
  exists o, m. rewrite <- Hm. split_and!; try done.
  - intros Heq. rewrite Heq in Hlu. cbn in Hlu. lia.
  - intros Heq. rewrite Heq in Hlen. cbn in Hlen. lia.
  - lia.
  - lia.
Qed.

(** X1.  The create controller never throws.  It answers 201, 400, 401 or 500.
    When it answers 201 the body is the wire form of one new row, appended to
    the table, whose [userId] and [scopes] are those of the request body, in
    the same order, and whose token string is ["token_"] followed by a
    version 4 UUID.  With any other answer the table is as it was. *)
Theorem createTokenController_outcomes (w : World)
    (request : Next.NextRequest) :
  ∃ response w',
    TokenController.createTokenController request w = (Returned response, w')
    ∧ Next.status response ∈ [201; 400; 401; 500]
    ∧ match decide (Next.status response = 201) with
      | left _ =>
          ∃ row o,
            Next.body response = Next.TokenBody (serialized row)
            ∧ tokens w' = tokens w ++ [row]
            ∧ Next.json request = Some (JS.JObject o)
            ∧ o !! "userId" = Some (JS.JString (userId row))
            ∧ o !! "scopes" = Some (JS.JArray (JS.JString <$> scopes row))
            ∧ ∃ uuid, token row = "token_" +:+ uuid ∧ JS.isUUIDv4 uuid = true
      | right _ => tokens w' = tokens w
      end.
Proof.
  destruct (createTokenController_cases w request) as (b & w1 & Hauth & H).
  destruct (validateApiKey_cases w request)
    as (b' & w1' & Hauth' & _ & Htokens & _).
  rewrite Hauth in Hauth'. injection Hauth' as <- <-.
  destruct b.
  - destruct (Next.json request) as [data|] eqn:Hjson.
    + destruct (Zod.safeParse _ data) as [issues|input] eqn:Hparse.
      * rewrite H. eexists _, _. split; [reflexivity|].
        split; [set_solver|]. by cbn.
      * pose proof (createToken_cases w1 (TokenValidation.userId input)
                      (TokenValidation.scopes input)
                      (TokenValidation.expiresInMinutes input)) as Hc.
        destruct (TokenService.createToken _ _ _ w1) as [[tok|x] w2].
        -- destruct H as (row & Hrow & ->).
           destruct Hc as (e & _ & _ & _ & _ & Htok & ->).
           eexists _, _. split; [reflexivity|]. split; [set_solver|].
           cbn [Next.status Next.NextResponse_json decide]. 
           destruct (decide (201 = 201)) as [_|]; [|done].
           rewrite Htok in Hrow.
           assert (row = {| id := cuid w1 (issued w1);
                            token := "token_" +:+ JS.uuidOfRandom (nextBytes 16 w1);
                            userId := TokenValidation.userId input;
                            scopes := TokenValidation.scopes input;
                            createdAt := clock w1 (S (reads w1));
                            expiresAt := e |}) as ->.
           { destruct row. unfold Prisma.toToken in Hrow. cbn in Hrow.
             by simplify_eq. }
           apply createTokenSchema_parsed in Hparse
             as (o & m & -> & Hu & Hs & _).
           eexists _, o. cbn [Next.body Next.NextResponse_json tokens
             set_issued set_reads set_tokens set_drawn userId scopes token].
           rewrite Htokens. repeat split; try done.
           eexists. split; [reflexivity|].
           apply uuidOfRandom_canonical. unfold nextBytes.
           by rewrite length_fmap, length_seq.
        -- rewrite H. destruct Hc as [-> _].
           eexists _, _. split; [reflexivity|]. split; [set_solver|].
           by cbn.
    + rewrite H. eexists _, _. split; [reflexivity|]. split; [set_solver|].
      by cbn.
  - destruct H as [-> ->]. eexists _, _. split; [reflexivity|].
    split; [set_solver|]. by cbn.
Qed.

(** X2.  The table stays within what the validator lets in: if every row has a
    non-empty [userId] and at least one scope, none of them empty, then so
    has every row after a call of the create controller, whatever the
    request. *)
Theorem createTokenController_keeps_validated (w : World)
    (request : Next.NextRequest) :
  Forall validated (tokens w) →
  Forall validated
    (tokens (snd (TokenController.createTokenController request w))).
Proof.
  intros Hinv.
  destruct (createTokenController_cases w request) as (b & w1 & Hauth & H).
  destruct (validateApiKey_cases w request)
    as (b' & w1' & Hauth' & _ & Htokens & _).
  rewrite Hauth in Hauth'. injection Hauth' as <- <-.
  destruct b; [|destruct H as [_ ->]; done].
  destruct (Next.json request) as [data|]; [|by rewrite H, <- Htokens in *].
  destruct (Zod.safeParse _ data) as [issues|input] eqn:Hparse;
    [by rewrite H, <- Htokens in *|].
  pose proof (createToken_cases w1 (TokenValidation.userId input)
                (TokenValidation.scopes input)
                (TokenValidation.expiresInMinutes input)) as Hc.
  destruct (TokenService.createToken _ _ _ w1) as [[tok|x] w2].
  - destruct H as (row & _ & ->). destruct Hc as (e & _ & _ & _ & _ & _ & ->).
    cbn [snd tokens set_issued set_reads set_tokens set_drawn].
    rewrite Htokens. apply Forall_app. split; [done|].
    apply createTokenSchema_parsed in Hparse
      as (o & m & _ & _ & _ & _ & Hu & Hs & Hall & _).
    constructor; [|constructor]. by split.
  - rewrite H. destruct Hc as [-> _].
    cbn [snd tokens set_console set_reads set_drawn]. by rewrite Htokens.
Qed.

Lemma createTokenController_keeps_validated_witness :
  Forall validated
    (tokens (snd (TokenController.createTokenController
                    (Fixtures.request (Some "secret") (Some Fixtures.scenarioA))
                    Fixtures.w0)))
  ∧ tokens (snd (TokenController.createTokenController
                   (Fixtures.request (Some "secret") (Some Fixtures.scenarioA))
                   Fixtures.w0)) ≠ [].
Proof.
  split.
  - apply (createTokenController_keeps_validated Fixtures.w0). constructor.
  - vm_compute. discriminate.
Defined.

(** ** [createToken] and the unique indexes of the table *)

(** X3.  [createToken] keeps the token strings of the table pairwise distinct, and
    its identifiers too, whatever its arguments and whether it returns or
    throws: a generated token string that is already stored is refused, not
    stored twice. *)
Theorem createToken_keeps_unique (w : World) (u : string) (s : list string)
    (m : JS.number) :
  NoDup (token <$> tokens w) →
  NoDup (id <$> tokens w) →
  NoDup (token <$> tokens (snd (TokenService.createToken u s m w)))
  ∧ NoDup (id <$> tokens (snd (TokenService.createToken u s m w))).
Proof.
  intros Htk Hid. pose proof (createToken_cases w u s m) as Hc.
  destruct (TokenService.createToken u s m w) as [[tok|x] w'].
  - destruct Hc as (e & _ & _ & Hfid & Hftk & _ & ->).
    cbn [snd tokens set_issued set_reads set_tokens set_drawn].
    rewrite !fmap_app. cbn [fmap list_fmap id token].
    split; apply NoDup_app; (split; [done|]);
      (split; [|apply NoDup_singleton]); intros x Hx Hx';
      apply list_elem_of_singleton in Hx'; by subst.
  - destruct Hc as [-> _]. by cbn.
Qed.

Lemma createToken_keeps_unique_witness :
  length (tokens Fixtures.wA) = 1%nat
  ∧ NoDup (token <$> tokens
             (snd (TokenService.createToken "user123" ["read"] (JS.ofZ 5)
                     Fixtures.wA)))
  ∧ length (tokens (snd (TokenService.createToken "user123" ["read"]
                           (JS.ofZ 5) Fixtures.wA))) = 2%nat.
Proof.
  split; [by vm_compute|]. split; [|by vm_compute].
  apply (createToken_keeps_unique Fixtures.wA "user123" ["read"] (JS.ofZ 5));
    apply (bool_decide_unpack _); by vm_compute.
Defined.

(** ** The create controller on a valid request *)

Lemma expiryIn_fixed_offset (w : World) (offset m : Z) :
  (∀ u isUTC, TZ w u isUTC = offset) →
  expiryIn w (JS.ofZ m)
  = JS.TimeClip (Some (clock w (reads w) + m * JS.msPerMinute)).
Proof. intros Htz. unfold expiryIn. by apply (setMinutes_fixed_offset _ offset). Qed.




(** ** The list request: its schema and its controller *)

Lemma getTokensSchema_run (o : gmap string JS.json) :
  Zod.safeParse TokenValidation.getTokensSchema (JS.JObject o)
  = match o !! "userId" with
    | Some (JS.JString u) =>
        if (1 <=? String.length u)%nat
        then inr {| TokenValidation.q_userId := u |}
        else inl [ {| Zod.path := [Zod.Key "userId"];
                      Zod.message := "userId must not be empty" |} ]
    | v =>
        inl [ {| Zod.path := [Zod.Key "userId"];
                 Zod.message :=
                   match v with
                   | None => "Required"
                   | Some _ =>
                       "Expected string, received " +:+ Zod.getParsedType v
                   end |} ]
    end.
Proof.
  unfold Zod.safeParse, TokenValidation.getTokensSchema, Zod.object,
    Zod.property, Zod.min, Zod.check, Zod.string, Zod.map.
  cbn [app]. destruct (o !! "userId") as [[| | |u| |]|]; try reflexivity.
  by destruct u.
Qed.


Lemma map_serializeToken_toToken (w : World) (rows : list Row) :
  TokenController.map_serializeToken (Prisma.toToken <$> rows) w
  = (Returned (serialized <$> rows), w).
Proof.
  induction rows as [|r rows IH]; [reflexivity|].
  cbn [fmap list_fmap TokenController.map_serializeToken].
  unfold mbind at 1. unfold Eff_bind at 1. rewrite serializeToken_toToken.
  unfold mbind at 1. unfold Eff_bind at 1.
  change (list_fmap Row TokenType.Token Prisma.toToken rows)
    with (Prisma.toToken <$> rows).
  by rewrite IH.
Qed.

Lemma getTokensController_cases (w : World) (request : Next.NextRequest) :
  ∃ b w1,
    Auth.validateApiKey request w = (Returned b, w1)
    ∧ if b then
        match Next.searchParams request !! "userId" with
        | None =>
            TokenController.getTokensController request w
            = (Returned
                 (TokenController.validationFailed
                    [ {| Zod.path := [Zod.Key "userId"];
                         Zod.message := "Expected string, received null" |} ]),
               w1)
        | Some u =>
            if decide (u = "") then
              TokenController.getTokensController request w
              = (Returned
                   (TokenController.validationFailed
                      [ {| Zod.path := [Zod.Key "userId"];
                           Zod.message := "userId must not be empty" |} ]),
                 w1)
            else if online w1 then
              TokenController.getTokensController request w
              = (Returned
                   (Next.NextResponse_json
                      (Next.TokensBody
                         (serialized <$>
                            merge_sort Prisma.createdAt_desc
                              (filter
                                 (λ r, userId r = u
                                       ∧ clock w1 (reads w1) < expiresAt r)
                                 (tokens w1))))
                      200),
                 set_reads (S (reads w1)) w1)
            else
              TokenController.getTokensController request w
              = (Returned TokenController.internalServerError,
                 set_console
                   (console w1 ++ [(Error, "Error fetching tokens:")])
                   (set_reads (S (reads w1)) w1))
        end
      else
        w1 = w
        ∧ TokenController.getTokensController request w
          = (Returned TokenController.unauthorized, w).
Proof.
  destruct (validateApiKey_cases w request) as (b & w1 & Hauth & Hfalse & _).
  exists b, w1. split; [done|].
  remember (TokenController.getTokensController request w) as run eqn:Hrun.
  unfold TokenController.getTokensController, try_catch in Hrun.
  unfold mbind at 1 in Hrun. unfold Eff_bind at 1 in Hrun. rewrite Hauth in Hrun.
  destruct b; cbn [negb] in Hrun.
  - unfold mbind at 1 in Hrun. unfold Eff_bind at 1 in Hrun.
    unfold parse in Hrun. rewrite getTokensSchema_run in Hrun.
    rewrite lookup_singleton_eq in Hrun.
    destruct (Next.searchParams request !! "userId") as [u|]; [|exact Hrun].
    destruct (decide (u = "")) as [->|Hne]; [exact Hrun|].
    assert ((1 <=? String.length u)%nat = true) as Hlen by (by destruct u).
    rewrite Hlen in Hrun. unfold mret at 1, Eff_ret at 1 in Hrun.
    unfold mbind at 1 in Hrun. unfold Eff_bind at 1 in Hrun.
    cbn [TokenValidation.q_userId] in Hrun.
    rewrite getActiveTokensForUser_run in Hrun.
    destruct (online w1); [|exact Hrun].
    unfold mbind at 1 in Hrun. unfold Eff_bind at 1 in Hrun.
    rewrite map_serializeToken_toToken in Hrun. exact Hrun.
  - split; [by apply Hfalse|]. rewrite Hrun, (Hfalse eq_refl). reflexivity.
Qed.


(** ** Requests the gate rejects *)

(** X7.  A request the gate rejects is answered 401 by both controllers, and the
    world is left exactly as it was: the body is not read, the clock is not
    read, no entropy is drawn, nothing is logged, and the table is neither
    read nor written. *)
Theorem rejected_request_untouched (w : World) (request : Next.NextRequest) :
  fst (Auth.validateApiKey request w) = Returned false →
  TokenController.createTokenController request w
  = (Returned TokenController.unauthorized, w)
  ∧ TokenController.getTokensController request w
    = (Returned TokenController.unauthorized, w)
  ∧ Next.status TokenController.unauthorized = 401
  ∧ Next.body TokenController.unauthorized
    = Next.ErrorBody
        {| TokenType.error := "Unauthorized. Valid X-API-Key header required.";
           TokenType.details := None |}.
Proof.
  intros Hauth.
  destruct (createTokenController_cases w request) as (b & w1 & Hauth1 & Hc).
  destruct (getTokensController_cases w request) as (b' & w1' & Hauth2 & Hg).
  rewrite Hauth1 in Hauth2. injection Hauth2 as <- <-.
  rewrite Hauth1 in Hauth. cbn [fst] in Hauth. injection Hauth as ->.
  destruct Hc as [_ ->]. destruct Hg as [_ ->]. done.
Qed.

Lemma rejected_request_untouched_witness :
  fst (Auth.validateApiKey (Fixtures.request (Some "guess")
                              (Some Fixtures.scenarioA)) Fixtures.w0)
  = Returned false
  ∧ TokenController.createTokenController
      (Fixtures.request (Some "guess") (Some Fixtures.scenarioA)) Fixtures.w0
    = (Returned TokenController.unauthorized, Fixtures.w0).
Proof.
  split; [by vm_compute|].
  apply (rejected_request_untouched Fixtures.w0
           (Fixtures.request (Some "guess") (Some Fixtures.scenarioA))).
  by vm_compute.
Defined.

(** ** The status the create controller answers *)

(** Takes the hypotheses apart and closes a goal that they contradict. *)
Ltac settle :=
  intros;
  repeat match goal with
         | H : _ ∧ _ |- _ => destruct H
         | H : ∃ _, _ |- _ => destruct H
         | H : _ ∨ _ |- _ => destruct H
         end;
  simplify_eq; try done; try congruence.

(** X8.  The create controller answers 401 exactly when the gate rejects the
    request; 400 exactly when the gate lets it through, its body is JSON and
    the schema rejects the parsed body, and the response then carries the
    issues of the schema; 201 exactly when the schema accepts the parsed body
    and [createToken] returns; and 500 in the cases that are left: a body
    that is not JSON, or a [createToken] that throws. *)
Theorem createTokenController_statuses (w : World)
    (request : Next.NextRequest) :
  ∃ b w1 response w',
    Auth.validateApiKey request w = (Returned b, w1)
    ∧ TokenController.createTokenController request w = (Returned response, w')
    ∧ (Next.status response = 401 ↔ b = false)
    ∧ (Next.status response = 400
       ↔ b = true
         ∧ ∃ data issues,
             Next.json request = Some data
             ∧ Zod.safeParse TokenValidation.createTokenSchema data = inl issues)
    ∧ (∀ data issues,
         b = true → Next.json request = Some data →
         Zod.safeParse TokenValidation.createTokenSchema data = inl issues →
         response = TokenController.validationFailed issues ∧ w' = w1)
    ∧ (Next.status response = 201
       ↔ b = true
         ∧ ∃ data input tok,
             Next.json request = Some data
             ∧ Zod.safeParse TokenValidation.createTokenSchema data = inr input
             ∧ fst (TokenService.createToken
                      (TokenValidation.userId input)
                      (TokenValidation.scopes input)
                      (TokenValidation.expiresInMinutes input) w1)
               = Returned tok)
    ∧ (Next.status response = 500
       ↔ b = true
         ∧ (Next.json request = None
            ∨ ∃ data input x,
                Next.json request = Some data
                ∧ Zod.safeParse TokenValidation.createTokenSchema data
                  = inr input
                ∧ fst (TokenService.createToken
                         (TokenValidation.userId input)
                         (TokenValidation.scopes input)
                         (TokenValidation.expiresInMinutes input) w1)
                  = Thrown x)).
Proof.
  destruct (createTokenController_cases w request) as (b & w1 & Hauth & H).
  exists b, w1. destruct b.
  - destruct (Next.json request) as [data|] eqn:Hjson.
    + destruct (Zod.safeParse _ data) as [issues|input] eqn:Hparse.
      * eexists _, _. split; [done|]. split; [exact H|].
        cbn [Next.status TokenController.validationFailed Next.NextResponse_json].
        split_and!; try (split; settle; eauto 10); settle.
      * destruct (TokenService.createToken _ _ _ w1) as [[tok|x] w2] eqn:Hcreate.
        -- destruct H as (row & Hrow & H).
           assert (Hfst := f_equal fst Hcreate). cbn [fst] in Hfst.
           eexists _, _. split; [done|]. split; [exact H|].
           cbn [Next.status Next.NextResponse_json].
           split_and!; try (split; settle; eauto 10); settle.
        -- assert (Hfst := f_equal fst Hcreate). cbn [fst] in Hfst.
           eexists _, _. split; [done|]. split; [exact H|].
           cbn [Next.status TokenController.internalServerError
                Next.NextResponse_json].
           split_and!; try (split; settle; eauto 10); settle.
    + eexists _, _. split; [done|]. split; [exact H|].
      cbn [Next.status TokenController.internalServerError
           Next.NextResponse_json].
      split_and!; try (split; settle; eauto 10); settle.
  - destruct H as [-> H]. eexists _, _. split; [done|]. split; [exact H|].
    cbn [Next.status TokenController.unauthorized Next.NextResponse_json].
    split_and!; try (split; settle; eauto 10); settle.
Qed.

(** ** A created token and the listing that follows *)

Lemma toToken_inj (r r' : Row) : Prisma.toToken r = Prisma.toToken r' → r = r'.
Proof.
  destruct r, r'. unfold Prisma.toToken. cbn. intros H. by simplify_eq.
Qed.

(** X9.  A token that [createToken] has returned is in the listing of its user
    that follows exactly when the reading of the clock taken by that listing
    is strictly before the token's expiry: it is visible at once, and it is
    gone once the clock has reached [expiresAt]. *)
Theorem createToken_then_list (w : World) (u : string) (s : list string)
    (m : JS.number) (tok : TokenType.Token) (e : Z) :
  fst (TokenService.createToken u s m w) = Returned tok →
  TokenType.expiresAt tok = Some e →
  ∃ listed,
    fst (TokenService.getActiveTokensForUser u
           (snd (TokenService.createToken u s m w))) = Returned listed
    ∧ (tok ∈ listed ↔ clock w (S (S (reads w))) < e).
Proof.
  intros Hrun He. pose proof (createToken_cases w u s m) as Hc.
  destruct (TokenService.createToken u s m w) as [[tok'|x] w']; [|done].
  cbn [fst snd] in *. injection Hrun as ->.
  destruct Hc as (e' & _ & Hon & _ & _ & -> & ->).
  cbn [Prisma.toToken TokenType.expiresAt expiresAt] in He. injection He as ->.
  rewrite getActiveTokensForUser_run.
  cbn [online set_issued set_reads set_tokens set_drawn clock reads tokens].
  rewrite Hon. eexists. split; [reflexivity|].
  set (row := {| id := cuid w (issued w);
                 token := "token_" +:+ JS.uuidOfRandom (nextBytes 16 w);
                 userId := u; scopes := s; createdAt := clock w (S (reads w));
                 expiresAt := e |}).
  change (Prisma.toToken row ∈
            Prisma.toToken <$>
              merge_sort Prisma.createdAt_desc
                (filter (λ r, userId r = u ∧ clock w (S (S (reads w))) < expiresAt r)
                        (tokens w ++ [row]))
          ↔ clock w (S (S (reads w))) < e).
  rewrite list_elem_of_fmap. split.
  - intros (r & Heq%toToken_inj & Hr). subst r.
    rewrite merge_sort_Permutation in Hr.
    apply list_elem_of_filter in Hr as [[_ Hlt] _]. exact Hlt.
  - intros Hlt. exists row. split; [done|].
    rewrite merge_sort_Permutation. apply list_elem_of_filter.
    split; [by split|]. set_solver.
Qed.

Lemma createToken_then_list_witness :
  ∃ tok listed,
    fst (TokenService.createToken "user123" ["read"; "write"] (JS.ofZ 60)
           Fixtures.w0) = Returned tok
    ∧ fst (TokenService.getActiveTokensForUser "user123"
             (snd (TokenService.createToken "user123" ["read"; "write"]
                     (JS.ofZ 60) Fixtures.w0))) = Returned listed
    ∧ tok ∈ listed.
Proof.
  eexists.
  destruct (createToken_then_list Fixtures.w0 "user123" ["read"; "write"]
              (JS.ofZ 60) _ 1735729200000 eq_refl eq_refl)
    as (listed & Hlist & Hin).
  exists listed. split; [reflexivity|]. split; [exact Hlist|].
  apply Hin. by vm_compute.
Defined.

(** ** The sweep of expired tokens *)

Lemma deleteExpiredTokens_run (w : World) :
  TokenService.deleteExpiredTokens w
  = if online w
    then (Returned
            (length (filter (λ r, expiresAt r ≤ clock w (reads w)) (tokens w))),
          set_tokens
            (filter (λ r, ¬ expiresAt r ≤ clock w (reads w)) (tokens w))
            (set_reads (S (reads w)) w))
    else (Thrown PrismaClientInitializationError, set_reads (S (reads w)) w).
Proof.
  unfold TokenService.deleteExpiredTokens, mbind, Eff_bind, new_Date,
    Prisma.token_deleteMany.
  cbn [online set_reads tokens]. by destruct (online w).
Qed.




(** X11.  A listing made after a sweep returns what it would have returned at the
    same reading of the clock had the sweep not run, provided the clock has
    not gone backwards between the two readings: the sweep removes no row
    that a later listing would show. *)
Theorem deleteExpiredTokens_then_list (w : World) (u : string) :
  clock w (reads w) ≤ clock w (S (reads w)) →
  TokenService.getActiveTokensForUser u
    (snd (TokenService.deleteExpiredTokens w))
  = (fst (TokenService.getActiveTokensForUser u (set_reads (S (reads w)) w)),
     set_reads (S (S (reads w))) (snd (TokenService.deleteExpiredTokens w))).
Proof.
  intros Hclock. rewrite deleteExpiredTokens_run, !getActiveTokensForUser_run.
  destruct (online w) eqn:Hon;
    cbn [fst snd online tokens reads clock set_tokens set_reads];
    rewrite ?Hon; [|done].
  cbn [fst]. do 3 f_equal.
  rewrite list_filter_filter. f_equal. apply list_filter_iff. intros r.
  split; [tauto|]. intros [? ?]. split_and!; [done..|lia].
Qed.

Lemma deleteExpiredTokens_then_list_witness :
  TokenService.getActiveTokensForUser "user123"
    (snd (TokenService.deleteExpiredTokens Fixtures.wA))
  = (fst (TokenService.getActiveTokensForUser "user123"
            (set_reads (S (reads Fixtures.wA)) Fixtures.wA)),
     set_reads (S (S (reads Fixtures.wA)))
       (snd (TokenService.deleteExpiredTokens Fixtures.wA))).
Proof.
  apply (deleteExpiredTokens_then_list Fixtures.wA "user123"). by vm_compute.
Defined.

Lemma isTokenExpired_run (w : World) (d : JS.Date) :
  TokenService.isTokenExpired d w
  = (Returned (JS.gt (Some (clock w (reads w))) d), set_reads (S (reads w)) w).
Proof. reflexivity. Qed.

(** X12.  The three tests of expiry in the service, read at one and the same
    instant [now], for a stored row [r] with expiry [e]: the row is listed
    for its user exactly when a sweep keeps it, which is exactly when
    [now < e]; [isTokenExpired] returns true exactly when [e < now].  So
    wherever [isTokenExpired] says expired the row is neither listed nor
    kept, and at [now = e] the row is not listed and is swept although
    [isTokenExpired] returns false. *)
Theorem expiry_tests_agree_off_boundary (w : World) (r : Row) :
  online w = true →
  r ∈ tokens w →
  let now := clock w (reads w) in
  ∃ listed n expired,
    fst (TokenService.getActiveTokensForUser (userId r) w) = Returned listed
    ∧ fst (TokenService.deleteExpiredTokens w) = Returned n
    ∧ fst (TokenService.isTokenExpired (Some (expiresAt r)) w)
      = Returned expired
    ∧ (Prisma.toToken r ∈ listed ↔ now < expiresAt r)
    ∧ (r ∈ tokens (snd (TokenService.deleteExpiredTokens w))
       ↔ now < expiresAt r)
    ∧ (expired = true ↔ expiresAt r < now)
    ∧ (expiresAt r = now →
       (Prisma.toToken r ∉ listed)
       ∧ (r ∉ tokens (snd (TokenService.deleteExpiredTokens w)))
       ∧ (0 < n)%nat
       ∧ expired = false).
Proof.
  intros Hon Hr now.
  rewrite getActiveTokensForUser_run, deleteExpiredTokens_run,
    isTokenExpired_run, Hon.
  cbn [fst snd tokens set_tokens set_reads JS.gt]. fold now.
  do 3 eexists. split_and!; try reflexivity.
  - rewrite list_elem_of_fmap. split.
    + intros (r' & Heq%toToken_inj & Hin). subst r'.
      rewrite merge_sort_Permutation in Hin.
      by apply list_elem_of_filter in Hin as [[_ ?] _].
    + intros Hlt. exists r. split; [done|].
      rewrite merge_sort_Permutation. by apply list_elem_of_filter.
  - rewrite list_elem_of_filter. split; [intros [? _]; lia|]. split; [lia|done].
  - apply Z.ltb_lt.
  - intros He. split_and!.
    + rewrite list_elem_of_fmap. intros (r' & Heq%toToken_inj & Hin). subst r'.
      rewrite merge_sort_Permutation in Hin.
      apply list_elem_of_filter in Hin as [[_ ?] _]. lia.
    + rewrite list_elem_of_filter. intros [? _]. lia.
    + assert (Hin : r ∈ filter (λ r0, expiresAt r0 ≤ now) (tokens w)).
      { apply list_elem_of_filter. split; [lia|done]. }
      destruct (filter _ _); [by apply elem_of_nil in Hin|cbn; lia].
    + apply Z.ltb_ge. lia.
Qed.

Lemma expiry_tests_agree_off_boundary_witness :
  ∃ listed,
    fst (TokenService.getActiveTokensForUser "user123" Fixtures.wA)
    = Returned listed
    ∧ Prisma.toToken Fixtures.rowA ∈ listed.
Proof.
  assert (Hin : Fixtures.rowA ∈ tokens Fixtures.wA).
  { replace (tokens Fixtures.wA) with [Fixtures.rowA] by (by vm_compute).
    by left. }
  destruct (expiry_tests_agree_off_boundary Fixtures.wA Fixtures.rowA
              eq_refl Hin)
    as (listed & n & expired & Hlisted & _ & _ & Hshown & _).
  exists listed. split; [exact Hlisted|]. apply Hshown. by vm_compute.
Defined.

(** ** Lifetimes that are not finite, and dates that are not valid *)

(** X13.  A lifetime that is NaN or infinite gives an Invalid Date in every time
    zone, and [createToken] then fails with the client's validation error:
    the entropy and the reading of the clock are spent, and no row is
    stored. *)
Theorem createToken_nonfinite_minutes (w : World) (u : string)
    (s : list string) :
  let spent := set_reads (S (reads w)) (set_drawn (drawn w + 16)%nat w) in
  let refused := (Thrown (PrismaClientValidationError "Invalid Date"), spent) in
  fst (TokenService.calculateExpiryDate JS.NaN w) = Returned None
  ∧ (∀ b, fst (TokenService.calculateExpiryDate (JS.Infinity b) w)
          = Returned None)
  ∧ TokenService.createToken u s JS.NaN w = refused
  ∧ (∀ b, TokenService.createToken u s (JS.Infinity b) w = refused)
  ∧ tokens spent = tokens w.
Proof.
  intros spent refused.
  assert (Hnan : ∀ x, JS.add x JS.NaN = JS.NaN) by (by intros [| |]).
  assert (Hinf : ∀ z b, JS.add (JS.ofZ z) (JS.Infinity b) = JS.Infinity b)
    by done.
  assert (Hexp : ∀ w0, expiryIn w0 JS.NaN = None
                       ∧ ∀ b, expiryIn w0 (JS.Infinity b) = None).
  { intros w0. unfold expiryIn, JS.getMinutes. split; [|intros b].
    - by rewrite Hnan.
    - by rewrite Hinf. }
  split_and!.
  - by rewrite calculateExpiryDate_run, (proj1 (Hexp w)).
  - intros b. by rewrite calculateExpiryDate_run, (proj2 (Hexp w)).
  - rewrite createToken_unfold. by rewrite (proj1 (Hexp w)).
  - intros b. rewrite createToken_unfold. by rewrite (proj2 (Hexp w)).
  - done.
Qed.

(** X14.  [serializeToken] reads and writes nothing.  It returns exactly when both
    dates of the token are valid, with the four plain fields copied; on a
    token one of whose dates is an Invalid Date it throws the [RangeError] of
    [toISOString]. *)
Theorem serializeToken_total (w : World) (tok : TokenType.Token) :
  snd (TokenService.serializeToken tok w) = w
  ∧ match fst (TokenService.serializeToken tok w) with
    | Returned r =>
        (∃ c e, TokenType.createdAt tok = Some c
                ∧ TokenType.expiresAt tok = Some e
                ∧ TokenType.r_createdAt r = isoOf c
                ∧ TokenType.r_expiresAt r = isoOf e)
        ∧ TokenType.r_id r = TokenType.id tok
        ∧ TokenType.r_token r = TokenType.token tok
        ∧ TokenType.r_userId r = TokenType.userId tok
        ∧ TokenType.r_scopes r = TokenType.scopes tok
    | Thrown x =>
        x = RangeError "Invalid time value"
        ∧ (TokenType.createdAt tok = None ∨ TokenType.expiresAt tok = None)
    end.
Proof.
  destruct tok as [i t u s [c|] [e|]];
    unfold TokenService.serializeToken, toISOString, mbind, Eff_bind, mret,
      Eff_ret, throw; cbn; eauto 10.
  split; [done|]. split; [|done]. by exists c, e.
Qed.

(** ** The issues the create schema raises *)








(** ** The lifetime of a created token *)

(** X16.  In a zone of fixed offset, let [createToken] have returned a token for a
    lifetime of [m] minutes, and let [deadline] be the reading of the clock
    taken by the expiry calculator plus [m] minutes.  Then [deadline] is a
    valid time value, and [isTokenExpired], asked about that token afterwards,
    returns true exactly when the clock it then reads has passed
    [deadline]. *)
Theorem createToken_lifetime (w : World) (u : string) (s : list string)
    (m offset : Z) (tok : TokenType.Token) :
  (∀ t isUTC, TZ w t isUTC = offset) →
  fst (TokenService.createToken u s (JS.ofZ m) w) = Returned tok →
  let deadline := clock w (reads w) + m * JS.msPerMinute in
  validTime deadline
  ∧ fst (TokenService.isTokenExpired (TokenType.expiresAt tok)
           (snd (TokenService.createToken u s (JS.ofZ m) w)))
    = Returned (bool_decide (deadline < clock w (S (S (reads w))))).
Proof.
  intros Htz Hrun deadline.
  pose proof (createToken_cases w u s (JS.ofZ m)) as Hc.
  destruct (TokenService.createToken u s (JS.ofZ m) w) as [[tok'|x] w'];
    [|done].
  cbn [fst snd] in *. injection Hrun as ->.
  destruct Hc as (e & He & _ & _ & _ & -> & ->).
  rewrite (expiryIn_fixed_offset w offset) in He by done. fold deadline in He.
  assert (Hd : e = deadline ∧ validTime deadline).
  { unfold JS.TimeClip in He. unfold validTime.
    destruct (Z.ltb_spec JS.maxTimeValue (Z.abs deadline)); [done|].
    injection He as <-. lia. }
  destruct Hd as [-> Hvalid].
  cbn [Prisma.toToken TokenType.expiresAt expiresAt].
  split; [done|].
  rewrite isTokenExpired_run.
  cbn [fst JS.gt clock reads set_issued set_reads set_tokens set_drawn].
  f_equal. destruct (Z.ltb_spec deadline (clock w (S (S (reads w)))));
    case_bool_decide; done || lia.
Qed.

Lemma createToken_lifetime_witness :
  fst (TokenService.isTokenExpired (Some (1735725600000 + 60 * 60000))
         (snd (TokenService.createToken "user123" ["read"] (JS.ofZ 60)
                 Fixtures.w0)))
  = Returned false.
Proof.
  exact (proj2 (createToken_lifetime Fixtures.w0 "user123" ["read"] 60 0 _
                  (λ _ _, eq_refl) eq_refl)).
Defined.

(** ** A token created through the API and the listing that follows *)

(** X17.  Let the create controller have answered 201, and let a list request that
    passes the gate follow it.  The 201 body is the wire form of the row just
    appended; and when the list request asks for the [userId] of that row, it
    is answered 200, with that row among the rows shown exactly when the
    clock read by the listing is still before the row's expiry. *)
Theorem createTokenController_then_list (w : World)
    (post get : Next.NextRequest) (created : Next.NextResponse) :
  fst (TokenController.createTokenController post w) = Returned created →
  Next.status created = 201 →
  let w' := snd (TokenController.createTokenController post w) in
  fst (Auth.validateApiKey get w') = Returned true →
  ∃ row rows,
    Next.body created = Next.TokenBody (serialized row)
    ∧ tokens w' = tokens w ++ [row]
    ∧ (Next.searchParams get !! "userId" = Some (userId row) →
       fst (TokenController.getTokensController get w')
       = Returned (Next.NextResponse_json
                     (Next.TokensBody (serialized <$> rows)) 200)
       ∧ (row ∈ rows ↔ clock w' (reads w') < expiresAt row)).
Proof.
  intros Hcreated Hstatus w' Hauth. subst w'.
  destruct (createTokenController_cases w post) as (b & w1 & Hgate & H).
  destruct (validateApiKey_cases w post)
    as (b' & w1' & Hgate' & _ & Htokens & _).
  rewrite Hgate in Hgate'. injection Hgate' as <- <-.
  destruct b;
    [|destruct H as [_ H]; rewrite H in Hcreated; by simplify_eq/=].
  destruct (Next.json post) as [data|];
    [|rewrite H in Hcreated; by simplify_eq/=].
  destruct (Zod.safeParse _ data) as [issues|input] eqn:Hparse;
    [rewrite H in Hcreated; by simplify_eq/=|].
  pose proof (createToken_cases w1 (TokenValidation.userId input)
                (TokenValidation.scopes input)
                (TokenValidation.expiresInMinutes input)) as Hc.
  destruct (TokenService.createToken _ _ _ w1) as [[tok|x] w2];
    [|rewrite H in Hcreated; by simplify_eq/=].
  destruct H as (row & Hrow & Hrun). rewrite Hrun in Hcreated, Hauth |- *.
  cbn [fst snd] in Hcreated, Hauth |- *. injection Hcreated as <-.
  destruct Hc as (e & _ & Honline & _ & _ & Htok & Hw2).
  rewrite Htok in Hrow. apply toToken_inj in Hrow.
  assert (Hrows : tokens w2 = tokens w ++ [row])
    by (by rewrite Hw2, <- Hrow, <- Htokens).
  assert (Hon2 : online w2 = true) by (by rewrite Hw2).
  assert (Huser : userId row ≠ "").
  { apply createTokenSchema_parsed in Hparse
      as (_ & _ & _ & _ & _ & _ & Hu & _). by rewrite <- Hrow. }
  exists row,
    (merge_sort Prisma.createdAt_desc
       (filter (λ r, userId r = userId row ∧ clock w2 (reads w2) < expiresAt r)
               (tokens w2))).
  split; [done|]. split; [done|]. intros Hquery.
  destruct (getTokensController_cases w2 get) as (b2 & w3 & Hgate2 & H2).
  destruct (validateApiKey_cases w2 get)
    as (b2' & w3' & Hgate2' & _ & Htokens3 & Hon3 & _ & Hclock3 & Hreads3 & _).
  rewrite Hgate2 in Hgate2'. injection Hgate2' as <- <-.
  rewrite Hgate2 in Hauth. cbn [fst] in Hauth. injection Hauth as ->.
  rewrite Hquery in H2. destruct (decide (userId row = "")); [done|].
  rewrite Hon3, Hon2, Htokens3, Hclock3, Hreads3 in H2. rewrite H2.
  split; [done|].
  rewrite merge_sort_Permutation, list_elem_of_filter, Hrows.
  split; [by intros [[_ ?] _]|]. intros Hlt. split; [by split|]. set_solver.
Qed.

Lemma createTokenController_then_list_witness :
  ∃ rows,
    fst (TokenController.getTokensController
           {| Next.headers := {[ "x-api-key" := "secret" ]};
              Next.searchParams := {[ "userId" := "user123" ]};
              Next.json := None |}
           Fixtures.wA)
    = Returned (Next.NextResponse_json
                  (Next.TokensBody (serialized <$> rows)) 200)
    ∧ Fixtures.rowA ∈ rows.
Proof.
  assert (Hcreated :
            fst (TokenController.createTokenController
                   (Fixtures.request (Some "secret") (Some Fixtures.scenarioA))
                   Fixtures.w0)
            = Returned (Next.NextResponse_json
                          (Next.TokenBody (serialized Fixtures.rowA)) 201))
    by (by vm_compute).
  assert (Hgate :
            fst (Auth.validateApiKey
                   {| Next.headers := {[ "x-api-key" := "secret" ]};
                      Next.searchParams := {[ "userId" := "user123" ]};
                      Next.json := None |}
                   (snd (TokenController.createTokenController
                           (Fixtures.request (Some "secret")
                              (Some Fixtures.scenarioA))
                           Fixtures.w0)))
            = Returned true)
    by (by vm_compute).
  destruct (createTokenController_then_list Fixtures.w0
              (Fixtures.request (Some "secret") (Some Fixtures.scenarioA))
              {| Next.headers := {[ "x-api-key" := "secret" ]};
                 Next.searchParams := {[ "userId" := "user123" ]};
                 Next.json := None |}
              _ Hcreated eq_refl Hgate)
    as (row & rows & Hbody & Hrows & Hlist).
  assert (Hrow : row = Fixtures.rowA).
  { assert (Heq : tokens Fixtures.w0 ++ [row] = [Fixtures.rowA])
      by (rewrite <- Hrows; by vm_compute).
    by injection Heq. }
  subst row. destruct (Hlist eq_refl) as [Hrun Hshown].
  exists rows. split; [exact Hrun|]. apply Hshown. by vm_compute.
Defined.
